(** * Personal Task Reminder System: the task store, the deadline selector,
      the extraction step of the scheduler and the countdown notifier.

    A shallow embedding of [reminder_full.c].  The global array
    [tasks[MAX_TASKS]] is a list of [MAX_TASKS] records updated by index;
    [task_count] and [next_id] are C [int]s, modelled as integers, with the
    increment of [next_id] wrapping at 32 bits (the indices and counters of
    the loops stay below [MAX_TASKS] and need no wrap-around); [time_t]
    values are integers and are only compared.  Every array access is bounds
    checked in the model: an access outside the array makes the operation
    return [None], so that "the operation returns [Some]" says that the C
    code stays inside the array.  The body of each critical section (the
    code between [pthread_mutex_lock] and [pthread_mutex_unlock]) is one
    function from stores to stores, the clock value read by [time(NULL)] is
    an argument, and what a function prints is its result.  The task file
    and the input of the prompts are the sequences of their characters, read
    and written by models of [fgets], [sscanf] and [fprintf] for the formats
    the program uses.  The menu loop, the reading of the priority and of the
    deadline in [add_task], [format_time], the alarm signal and the waiting
    of the scheduler are not part of the embedding. *)

From Stdlib Require Import ZArith Lia List Sorting.Sorted Permutation Ascii.
From stdpp Require Import base option list strings.

Local Open Scope Z_scope.

(** ** Data *)

Definition MAX_TASKS : Z := 256.

Definition INT_MIN : Z := - 2 ^ 31.
Definition INT_MAX : Z := 2 ^ 31 - 1.

(** Two's complement wrap-around of a C [int]. *)
Definition wrap_int (z : Z) : Z := (z + 2 ^ 31) mod 2 ^ 32 - 2 ^ 31.

(** [task_t]: the character arrays hold NUL terminated strings. *)
Record task_t : Type := mk_task {
  id : Z;
  title : string;
  category : string;
  priority : Z;
  deadline : Z
}.

(** [due_copy_t]: the copies handed to a reminder thread. *)
Record due_copy_t : Type := mk_due {
  items : list task_t;
  count : Z
}.

(** The globals [tasks], [task_count] and [next_id]. *)
Record store : Type := mk_store {
  tasks : list task_t;
  task_count : Z;
  next_id : Z
}.

Definition zero_task : task_t := mk_task 0 "" "" 0 0.

(** The state at program start: a zeroed array, [task_count = 0],
    [next_id = 1]. *)
Definition init_store : store :=
  mk_store (replicate (Z.to_nat MAX_TASKS) zero_task) 0 1.

(** [x = a[i]] and [a[i] = x], refusing an index outside the array. *)
Definition rd (arr : list task_t) (i : Z) : option task_t :=
  if 0 <=? i then arr !! Z.to_nat i else None.

Definition wr (arr : list task_t) (i : Z) (x : task_t) : option (list task_t) :=
  if (0 <=? i) && (i <? Z.of_nat (length arr))
  then Some (<[Z.to_nat i := x]> arr) else None.

(** [strncpy(dst, src, n)] into a buffer of [n + 1] bytes whose last byte is
    zero: the first [n] characters of [src]. *)
Definition strncpy (n : nat) (src : string) : string := String.substring 0 n src.

(** The tasks the operations look at: [tasks[0 .. task_count - 1]]. *)
Definition live (s : store) : list task_t :=
  take (Z.to_nat (task_count s)) (tasks s).

(** ** [load_tasks] *)

(** One line of the task file as [sscanf] sees it: five fields, or fewer. *)
Inductive line : Type :=
  | Parsed (lid : Z) (ltitle lcat : string) (lpr : Z) (ldl : Z)
  | Malformed.

Fixpoint load_loop (lines : list line) (s : store) : option store :=
  match lines with
  | [] => Some s
  | l :: rest =>
      if task_count s <? MAX_TASKS then
        match l with
        | Parsed lid ltitle lcat lpr ldl =>
            arr ← wr (tasks s) (task_count s)
                     (mk_task lid (strncpy 127 ltitle) (strncpy 31 lcat) lpr ldl);
            load_loop rest
              (mk_store arr (task_count s + 1)
                 (if next_id s <=? lid then wrap_int (lid + 1) else next_id s))
        | Malformed => load_loop rest s
        end
      else Some s
  end.

(** [file] is [None] when [fopen] fails. *)
Definition load_tasks (file : option (list line)) (s : store) : option store :=
  match file with
  | None => Some s
  | Some lines => load_loop lines (mk_store (tasks s) 0 1)
  end.

(** ** [add_task] (the critical section, after the input was read) *)

Inductive add_result : Type :=
  | Added (new_id : Z)
  | CapacityExceeded.

Definition add_task (ttl cat : string) (pr dl : Z) (s : store)
  : option (store * add_result) :=
  if MAX_TASKS <=? task_count s then Some (s, CapacityExceeded)
  else
    arr ← wr (tasks s) (task_count s)
             (mk_task (next_id s) (strncpy 127 ttl) (strncpy 31 cat) pr dl);
    Some (mk_store arr (task_count s + 1) (wrap_int (next_id s + 1)),
          Added (next_id s)).

(** ** [view_tasks]: the rows printed, in storage order *)

Fixpoint view_loop (n : nat) (i : Z) (arr : list task_t) : option (list task_t) :=
  match n with
  | O => Some []
  | S n' =>
      t ← rd arr i;
      rows ← view_loop n' (i + 1) arr;
      Some (t :: rows)
  end.

Definition view_tasks (s : store) : option (list task_t) :=
  view_loop (Z.to_nat (task_count s)) 0 (tasks s).

(** ** [delete_task] *)

(** The search loop; [-1] when no task has the id. *)
Fixpoint find_loop (n : nat) (i : Z) (arr : list task_t) (key : Z) : option Z :=
  match n with
  | O => Some (-1)
  | S n' =>
      t ← rd arr i;
      if id t =? key then Some i else find_loop n' (i + 1) arr key
  end.

(** [for (i = idx; i < task_count - 1; ++i) tasks[i] = tasks[i+1];] *)
Fixpoint shift_loop (n : nat) (i : Z) (arr : list task_t) : option (list task_t) :=
  match n with
  | O => Some arr
  | S n' =>
      t ← rd arr (i + 1);
      arr' ← wr arr i t;
      shift_loop n' (i + 1) arr'
  end.

Definition delete_task (key : Z) (s : store) : option (store * bool) :=
  idx ← find_loop (Z.to_nat (task_count s)) 0 (tasks s) key;
  if idx =? -1 then Some (s, false)
  else
    arr ← shift_loop (Z.to_nat (task_count s - 1 - idx)) idx (tasks s);
    Some (mk_store arr (task_count s - 1) (next_id s), true).

(** ** [next_deadline] *)

Fixpoint deadline_loop (n : nat) (i : Z) (arr : list task_t) (now best : Z)
  : option Z :=
  match n with
  | O => Some best
  | S n' =>
      t ← rd arr i;
      if deadline t <=? now then Some now
      else deadline_loop n' (i + 1) arr now
             (if (best =? 0) || (deadline t <? best) then deadline t else best)
  end.

Definition next_deadline (s : store) (now : Z) : option Z :=
  deadline_loop (Z.to_nat (task_count s)) 0 (tasks s) now 0.

(** ** [scheduler_thread_fn] *)

(** The test [nd == 0] that sends the scheduler to its two second poll. *)
Definition scheduler_polls (nd : Z) : bool := nd =? 0.

(** The first loop of the critical section: [due_count]. *)
Fixpoint count_loop (n : nat) (i : Z) (arr : list task_t) (tnow due_count : Z)
  : option Z :=
  match n with
  | O => Some due_count
  | S n' =>
      t ← rd arr i;
      count_loop n' (i + 1) arr tnow
        (if deadline t <=? tnow then due_count + 1 else due_count)
  end.

(** The second loop: due tasks go to [copies[ci++]], the others are moved
    down to [tasks[write_idx++]]. *)
Fixpoint partition_loop (n : nat) (i : Z) (tnow : Z)
    (arr copies : list task_t) (ci write_idx : Z)
  : option (list task_t * list task_t * Z * Z) :=
  match n with
  | O => Some (arr, copies, ci, write_idx)
  | S n' =>
      t ← rd arr i;
      if deadline t <=? tnow then
        copies' ← wr copies ci t;
        partition_loop n' (i + 1) tnow arr copies' (ci + 1) write_idx
      else
        arr' ← wr arr write_idx t;
        partition_loop n' (i + 1) tnow arr' copies ci (write_idx + 1)
  end.

(** Lines 226 to 248: the extraction under the lock and the [due_copy_t]
    built from it.  [None] for the batch when nothing is due (the scheduler
    goes back to the top of its loop).  [malloc] gives [due_count] slots of
    unspecified content, here [fill]. *)
Definition extract_due (fill : task_t) (tnow : Z) (s : store)
  : option (store * option due_copy_t) :=
  due_count ← count_loop (Z.to_nat (task_count s)) 0 (tasks s) tnow 0;
  if due_count =? 0 then Some (s, None)
  else
    '(arr, copies, ci, write_idx) ←
       partition_loop (Z.to_nat (task_count s)) 0 tnow (tasks s)
         (replicate (Z.to_nat due_count) fill) 0 0;
    Some (mk_store arr write_idx (next_id s), Some (mk_due copies due_count)).

(** The tasks of a batch: [items[0 .. count - 1]], none without a batch. *)
Definition batch_tasks (b : option due_copy_t) : list task_t :=
  match b with
  | None => []
  | Some dc => take (Z.to_nat (count dc)) (items dc)
  end.

(** ** [reminder_thread_fn] *)

Inductive event : Type :=
  | EHeader (n : Z)
  | EDetail (t : task_t)
  | ESleep (secs : Z)
  | ECountdown (ttl : string) (secs : Z)
  | EFinal (ttl : string)
  | EFinished.

Definition intervals : list Z := [30; 10; 15; 4; 1].
Definition announce_secs : list Z := [30; 20; 5; 1; 0].

Fixpoint detail_loop (n : nat) (i : Z) (its : list task_t) : option (list event) :=
  match n with
  | O => Some []
  | S n' =>
      t ← rd its i;
      evs ← detail_loop n' (i + 1) its;
      Some (EDetail t :: evs)
  end.

(** The inner loop of one countdown stage. *)
Fixpoint announce_loop (n : nat) (i : Z) (its : list task_t) (secs : Z)
  : option (list event) :=
  match n with
  | O => Some []
  | S n' =>
      t ← rd its i;
      evs ← announce_loop n' (i + 1) its secs;
      Some ((if 0 <? secs then ECountdown (title t) secs else EFinal (title t)) :: evs)
  end.

(** [for (k = 0; k < 5; ++k)]: [n] stages left, starting at stage [k]. *)
Fixpoint stage_loop (n : nat) (k : nat) (dc : due_copy_t) : option (list event) :=
  match n with
  | O => Some []
  | S n' =>
      iv ← intervals !! k;
      secs ← announce_secs !! k;
      evs ← announce_loop (Z.to_nat (count dc)) 0 (items dc) secs;
      rest ← stage_loop n' (S k) dc;
      Some (ESleep iv :: evs ++ rest)
  end.

(** The events of one reminder thread; [arg] is [None] for a null pointer. *)
Definition reminder_thread_fn (arg : option due_copy_t) : option (list event) :=
  match arg with
  | None => Some []
  | Some dc =>
      if count dc <=? 0 then Some []
      else
        details ← detail_loop (Z.to_nat (count dc)) 0 (items dc);
        stages ← stage_loop 5 0 dc;
        Some (EHeader (count dc) :: details ++ stages ++ [EFinished])
  end.

(** ** Runs of the process

    The operations that touch the store during one run, each the body of one
    critical section: the three menu entries, the two halves of a scheduler
    iteration ([next_deadline], then the extraction with the clock value it
    reads), and a reminder thread working on the batch it was given. *)

Inductive op : Type :=
  | OpAdd (ttl cat : string) (pr dl : Z)
  | OpDelete (key : Z)
  | OpView
  | OpNextDeadline (now : Z)
  | OpExtract (fill : task_t) (tnow : Z)
  | OpNotify (b : option due_copy_t).

Inductive outcome : Type :=
  | OAdded (new_id : Z)
  | ORejected
  | ODeleted (found : bool)
  | OViewed (rows : list task_t)
  | ONext (nd : Z)
  | OExtracted (b : option due_copy_t)
  | ONotified (evs : option (list event)).

Definition run_op (o : op) (s : store) : option (store * outcome) :=
  match o with
  | OpAdd ttl cat pr dl =>
      '(s', r) ← add_task ttl cat pr dl s;
      Some (s', match r with Added i => OAdded i | CapacityExceeded => ORejected end)
  | OpDelete key =>
      '(s', found) ← delete_task key s;
      Some (s', ODeleted found)
  | OpView =>
      rows ← view_tasks s;
      Some (s, OViewed rows)
  | OpNextDeadline now =>
      nd ← next_deadline s now;
      Some (s, ONext nd)
  | OpExtract fill tnow =>
      '(s', b) ← extract_due fill tnow s;
      Some (s', OExtracted b)
  | OpNotify b => Some (s, ONotified (reminder_thread_fn b))
  end.

Fixpoint run_ops (ops : list op) (s : store) : option (store * list outcome) :=
  match ops with
  | [] => Some (s, [])
  | o :: rest =>
      '(s1, r) ← run_op o s;
      '(s2, log) ← run_ops rest s1;
      Some (s2, r :: log)
  end.

(** The ids handed out by the [Add]s of a run, in order. *)
Fixpoint added_ids (log : list outcome) : list Z :=
  match log with
  | [] => []
  | OAdded i :: rest => i :: added_ids rest
  | _ :: rest => added_ids rest
  end.

Fixpoint count_adds (ops : list op) : Z :=
  match ops with
  | [] => 0
  | OpAdd _ _ _ _ :: rest => 1 + count_adds rest
  | _ :: rest => count_adds rest
  end.

(** The record an [Add] writes when it is given the id [i]. *)
Definition task_of_add (o : op) (i : Z) : option task_t :=
  match o with
  | OpAdd ttl cat pr dl => Some (mk_task i (strncpy 127 ttl) (strncpy 31 cat) pr dl)
  | _ => None
  end.

(** ** Predicates on stores *)

(** The array has its declared size and [task_count] is an index into it. *)
Definition store_ok (s : store) : Prop :=
  length (tasks s) = Z.to_nat MAX_TASKS ∧ 0 <= task_count s <= MAX_TASKS.

(** The value of a C [int]. *)
Definition is_int (z : Z) : Prop := INT_MIN <= z <= INT_MAX.

(** Every live id is below the id counter. *)
Definition ids_below (s : store) : Prop :=
  Forall (λ t, id t < next_id s) (live s).

Definition due (tnow : Z) (t : task_t) : Prop := deadline t <= tnow.
Definition future (tnow : Z) (t : task_t) : Prop := tnow < deadline t.

#[global] Instance due_dec tnow t : Decision (due tnow t) := Z_le_dec _ _.
#[global] Instance future_dec tnow t : Decision (future tnow t) := Z_lt_dec _ _.

(** The least element of a non-empty list of deadlines. *)
Definition min_deadline (d : Z) (ds : list Z) : Z := foldr Z.min d ds.

(** The clock offset at which each event of a reminder thread happens. *)
Fixpoint timeline (t : Z) (evs : list event) : list (Z * event) :=
  match evs with
  | [] => []
  | ESleep n :: rest => timeline (t + n) rest
  | e :: rest => (t, e) :: timeline t rest
  end.

(** What stage [k] of the countdown says about one task. *)
Definition stage_message (secs : Z) (t : task_t) : event :=
  if 0 <? secs then ECountdown (title t) secs else EFinal (title t).

(** The sleeps of a trace, and the time they add up to. *)
Definition sleeps (evs : list event) : list Z :=
  omap (λ e, match e with ESleep n => Some n | _ => None end) evs.

Definition elapsed (evs : list event) : Z := foldr Z.add 0 (sleeps evs).

Definition is_announcement (e : event) : bool :=
  match e with
  | ECountdown _ _ | EFinal _ => true
  | _ => false
  end.

(** The countdown messages of a trace, each with its clock offset. *)
Definition announcements (evs : list event) : list (Z * event) :=
  List.filter (λ p, is_announcement p.2) (timeline 0 evs).

(** One stage as seen from outside: at offset [off], every task of the
    batch gets the message for [secs] seconds left. *)
Definition stage_at (off secs : Z) (batch : list task_t) : list (Z * event) :=
  (λ t, (off, stage_message secs t)) <$> batch.

(** The records written by the [Add]s of a run, in order. *)
Fixpoint added_tasks (ops : list op) (log : list outcome) : list task_t :=
  match ops, log with
  | o :: ops', OAdded i :: log' =>
      match task_of_add o i with
      | Some t => t :: added_tasks ops' log'
      | None => added_tasks ops' log'
      end
  | _ :: ops', _ :: log' => added_tasks ops' log'
  | _, _ => []
  end.

(** [next_deadline] as a scan of a list of tasks. *)
Fixpoint scan_deadlines (l : list task_t) (now best : Z) : Z :=
  match l with
  | [] => best
  | t :: l' =>
      if deadline t <=? now then now
      else scan_deadlines l' now
             (if (best =? 0) || (deadline t <? best) then deadline t else best)
  end.

(** What [view_tasks], [next_deadline] and [delete_task] show of a store is
    a function of its live tasks: the slots from [task_count] on, where
    records taken out earlier may still stand, are never read. *)
Definition reads_only_live (s : store) : Prop :=
  view_tasks s = Some (live s)
  ∧ (∀ now, next_deadline s now = Some (scan_deadlines (live s) now 0))
  ∧ (∀ key, ∃ s' found,
       delete_task key s = Some (s', found)
       ∧ live s' `sublist_of` live s
       ∧ (found = true ↔ key ∈ id <$> live s)).

(** The ids a task file may carry for the id counter to stay an [int]. *)
Definition line_id_ok (l : line) : Prop :=
  match l with
  | Parsed lid _ _ _ _ => INT_MIN <= lid < INT_MAX
  | Malformed => True
  end.

(** ** Sample runs, used to exercise the statements below *)

Definition demo_ops : list op :=
  [OpAdd "pay rent" "Personal" 2 100;
   OpAdd "exam" "Study" 5 500;
   OpAdd "report" "Work" 3 100;
   OpAdd "call home" "Personal" 1 700].

(** Four tasks, two of them due at time 100. *)
Definition demo_store : store :=
  match run_ops demo_ops init_store with
  | Some (s, _) => s
  | None => init_store
  end.

(** [MAX_TASKS] adds: a full store. *)
Definition full_store : store :=
  match run_ops (replicate (Z.to_nat MAX_TASKS) (OpAdd "t" "Work" 1 1000)) init_store with
  | Some (s, _) => s
  | None => init_store
  end.

(** A task file whose only record carries the id [INT_MAX - 1]. *)
Definition big_id_file : list line := [Parsed 2147483646 "old" "Work" 1 1000].

(** Two tasks, the first with the deadline 0 (1970-01-01 00:00:00 UTC). *)
Definition epoch_store : store :=
  match run_ops [OpAdd "epoch" "Work" 1 0; OpAdd "later" "Work" 1 5] init_store with
  | Some (s, _) => s
  | None => init_store
  end.

(** The batch the scheduler takes out of [demo_store] at time 100. *)
Definition demo_batch : option due_copy_t :=
  match extract_due zero_task 100 demo_store with
  | Some (_, b) => b
  | None => None
  end.

Definition demo_dc : due_copy_t := default (mk_due [] 0) demo_batch.

(** The store after loading [big_id_file]: the id counter is [INT_MAX]. *)
Definition big_id_store : store :=
  default init_store (load_tasks (Some big_id_file) init_store).

(** A task file of 254 records whose last id is [INT_MAX - 3], and the
    store after loading it: room for two more tasks, and an id counter two
    below [INT_MAX].  Of four adds, two are accepted and two refused at
    capacity. *)
Definition near_full_file : list line :=
  (λ k, Parsed (2147483391 + Z.of_nat k) "t" "Work" 1 1000) <$> seq 0 254.

Definition near_full_store : store :=
  default init_store (load_tasks (Some near_full_file) init_store).

Definition four_adds : list op := replicate 4 (OpAdd "u" "Work" 1 2000).

(** A later part of the demo run: an add, a delete, a second extraction, a
    reminder thread, and two more adds. *)
Definition later_ops : list op :=
  [OpAdd "pay rent" "Personal" 2 100; OpView; OpDelete 2; OpNextDeadline 150;
   OpExtract zero_task 150; OpNotify demo_batch;
   OpAdd "gym" "Personal" 1 900; OpAdd "report" "Work" 3 100].

(** ** The task file as text: [save_tasks] and the reading half of
       [load_tasks]

    The file is the sequence of its characters.  [fprintf], [fgets],
    [strchr] and [sscanf] are modelled for the formats and buffer sizes the
    program calls them with, a numeral beyond the range of its type being
    converted as the C library of the program's platform converts it. *)

Definition LINE_BUF : nat := 512.

Definition newline : ascii := "010"%char.
Definition nul : ascii := "000"%char.
Definition bar : ascii := "|"%char.

(** The characters of a buffer up to its first NUL: what a [char *] shows. *)
Fixpoint c_string (s : string) : string :=
  match s with
  | EmptyString => EmptyString
  | String c rest => if Ascii.eqb c nul then EmptyString else String c (c_string rest)
  end.

(** [%d] and [%lld] of [fprintf]: a minus sign for a negative number, then
    the decimal digits, most significant first, no leading zero. *)
Definition digit_char (d : Z) : ascii := ascii_of_nat (48 + Z.to_nat d).

Fixpoint print_digits (fuel : nat) (n : Z) (acc : string) : string :=
  match fuel with
  | O => acc
  | S fuel' =>
      if n <? 10 then String (digit_char n) acc
      else print_digits fuel' (n / 10) (String (digit_char (n mod 10)) acc)
  end.

Definition print_int (z : Z) : string :=
  if z <? 0 then String "-" (print_digits (S (Z.to_nat (Z.log2 (- z)))) (- z) "")
  else print_digits (S (Z.to_nat (Z.log2 z))) z "".

(** [fprintf(f, "%d|%s|%s|%d|%lld\n", ...)] for one task. *)
Definition format_line (t : task_t) : string :=
  print_int (id t) +:+ String bar (c_string (title t))
    +:+ String bar (c_string (category t))
    +:+ String bar (print_int (priority t))
    +:+ String bar (print_int (deadline t)) +:+ String newline "".

Fixpoint save_loop (n : nat) (i : Z) (arr : list task_t) : option string :=
  match n with
  | O => Some ""
  | S n' =>
      t ← rd arr i;
      rest ← save_loop n' (i + 1) arr;
      Some (format_line t +:+ rest)
  end.

(** What [save_tasks] writes once [fopen] has succeeded. *)
Definition save_tasks (s : store) : option string :=
  save_loop (Z.to_nat (task_count s)) 0 (tasks s).

(** [fgets(line, n + 1, f)]: at most [n] characters, up to and including the
    first newline; the characters read and the rest of the file. *)
Fixpoint fgets (n : nat) (file : string) : string * string :=
  match n, file with
  | O, _ => ("", file)
  | _, EmptyString => ("", "")
  | S n', String c rest =>
      if Ascii.eqb c newline then (String c "", rest)
      else let '(l, r) := fgets n' rest in (String c l, r)
  end.

(** [char *nl = strchr(line, '\n'); if (nl) *nl = 0;] *)
Fixpoint chop_newline (s : string) : string :=
  match s with
  | EmptyString => EmptyString
  | String c rest =>
      if Ascii.eqb c newline then EmptyString else String c (chop_newline rest)
  end.

(** White space as [sscanf] skips it before a number. *)
Definition is_space (c : ascii) : bool :=
  let n := nat_of_ascii c in (n =? 32)%nat || ((9 <=? n)%nat && (n <=? 13)%nat).

Definition is_digit (c : ascii) : bool :=
  let n := nat_of_ascii c in (48 <=? n)%nat && (n <=? 57)%nat.

Fixpoint skip_space (s : string) : string :=
  match s with
  | String c rest => if is_space c then skip_space rest else s
  | EmptyString => s
  end.

(** The longest run of digits at the head of [s], read in base ten. *)
Fixpoint scan_digits (s : string) (acc : Z) : Z * string :=
  match s with
  | String c rest =>
      if is_digit c then scan_digits rest (acc * 10 + (Z.of_nat (nat_of_ascii c) - 48))
      else (acc, s)
  | EmptyString => (acc, s)
  end.

(** The text of a number as a [%d] or [%lld] conversion takes it: white
    space, an optional sign, at least one digit; the number that is written
    and the rest of the line. *)
Definition scan_number (s : string) : option (Z * string) :=
  let s1 := skip_space s in
  let '(neg, s2) :=
    match s1 with
    | String c rest =>
        if Ascii.eqb c "-" then (true, rest)
        else if Ascii.eqb c "+" then (false, rest) else (false, s1)
    | EmptyString => (false, s1)
    end in
  match s2 with
  | String c _ =>
      if is_digit c then
        let '(v, rest) := scan_digits s2 0 in Some (if neg then - v else v, rest)
      else None
  | EmptyString => None
  end.

Definition LLONG_MIN : Z := - 2 ^ 63.
Definition LLONG_MAX : Z := 2 ^ 63 - 1.

(** The C library converts the text with [strtol] or [strtoll], which stop
    at the ends of the 64-bit range of [long] and [long long]. *)
Definition clamp_llong (z : Z) : Z := Z.max LLONG_MIN (Z.min LLONG_MAX z).

(** A [%d] conversion: the [long] is stored into an [int], which keeps its
    low 32 bits. *)
Definition scan_int (s : string) : option (Z * string) :=
  '(v, rest) ← scan_number s;
  Some (wrap_int (clamp_llong v), rest).

(** A [%lld] conversion. *)
Definition scan_llong (s : string) : option (Z * string) :=
  '(v, rest) ← scan_number s;
  Some (clamp_llong v, rest).

(** The characters a [%n[^|]] conversion takes: at most [n], none a bar. *)
Fixpoint scan_set (n : nat) (s : string) : string * string :=
  match n, s with
  | S n', String c rest =>
      if Ascii.eqb c bar then ("", s)
      else let '(f, r) := scan_set n' rest in (String c f, r)
  | _, _ => ("", s)
  end.

(** The conversion fails when it takes no character. *)
Definition scan_field (n : nat) (s : string) : option (string * string) :=
  match scan_set n s with
  | (EmptyString, _) => None
  | (f, r) => Some (f, r)
  end.

(** A bar of the format has to be matched by a bar of the line. *)
Definition expect_bar (s : string) : option string :=
  match s with
  | String c rest => if Ascii.eqb c bar then Some rest else None
  | EmptyString => None
  end.

(** [sscanf(line, "%d|%127[^|]|%31[^|]|%d|%lld", ...) == 5], and the five
    values in that case. *)
Definition sscanf_line (s : string) : line :=
  match
    '(lid, s) ← scan_int s;
    s ← expect_bar s;
    '(ltitle, s) ← scan_field 127 s;
    s ← expect_bar s;
    '(lcat, s) ← scan_field 31 s;
    s ← expect_bar s;
    '(lpr, s) ← scan_int s;
    s ← expect_bar s;
    '(ldl, _) ← scan_llong s;
    Some (Parsed lid ltitle lcat lpr ldl)
  with
  | Some l => l
  | None => Malformed
  end.

(** The lines [fgets] hands to the loop of [load_tasks] until it returns
    NULL at the end of the file, each as [sscanf] reads it; [fuel] bounds
    the number of calls. *)
Fixpoint read_lines (fuel : nat) (file : string) : list line :=
  match fuel with
  | O => []
  | S fuel' =>
      match file with
      | EmptyString => []
      | _ =>
          let '(buf, rest) := fgets (LINE_BUF - 1) file in
          sscanf_line (chop_newline (c_string buf)) :: read_lines fuel' rest
      end
  end.

(** [load_tasks] on the text of the file; [None] when [fopen] fails.  Every
    call of [fgets] takes at least one character, so the length of the file
    is fuel enough. *)
Definition load_file (file : option string) (s : store) : option store :=
  load_tasks ((λ text, read_lines (String.length text) text) <$> file) s.

(** ** The callers of [save_tasks]

    [add_task] (when it has added), [delete_task] (found or not) and the
    scheduler (after an extraction that made a batch) call [save_tasks] once
    they have released the lock, so another thread may run in between: a
    save is an action of its own.  [fopen] is taken to succeed. *)

Inductive action : Type :=
  | Do (o : op)
  | Save.

(** An outcome that tells of a change to the live tasks. *)
Definition mutates (r : outcome) : bool :=
  match r with
  | OAdded _ | ODeleted true | OExtracted (Some _) => true
  | _ => false
  end.

(** The store, the text of the file, and whether a change has been made
    since the file was last written. *)
Fixpoint run_actions (acts : list action) (s : store) (file : string) (unsaved : bool)
  : option (store * string * bool) :=
  match acts with
  | [] => Some (s, file, unsaved)
  | Do o :: rest =>
      '(s', r) ← run_op o s;
      run_actions rest s' file (unsaved || mutates r)
  | Save :: rest =>
      text ← save_tasks s;
      run_actions rest s text false
  end.

(** ** The prompts of [add_task]

    [fgets(buf, size, stdin)] followed by [buf[strcspn(buf, "\n")] = 0]:
    the field and what is left of the input; [None] at the end of input. *)
Definition read_field (size : nat) (input : string) : option (string * string) :=
  match input with
  | EmptyString => None
  | _ => let '(buf, rest) := fgets (size - 1) input in
         Some (chop_newline (c_string buf), rest)
  end.

(** The title and the category as [add_task] reads them. *)
Definition read_title_category (input : string) : option (string * string * string) :=
  '(ttl, rest) ← read_field 128 input;
  '(cat, rest') ← read_field 32 rest;
  Some (ttl, cat, rest').

(** A character that may stand in a number or a field of a saved line. *)
Definition plain (c : ascii) : Prop := c ≠ bar ∧ c ≠ newline ∧ c ≠ nul.

(** [fuel] steps are enough to print [n]. *)
Definition enough (fuel : nat) (n : Z) : Prop :=
  0 <= n < 2 ^ Z.of_nat fuel ∧ (0 < fuel)%nat.

(** What may follow a number for the scan to stop there. *)
Definition stops (tail : string) : Prop :=
  match tail with
  | String c _ => is_digit c = false
  | EmptyString => True
  end.

(** A record that [save_tasks] writes and [load_tasks] reads back: numbers
    in the range of their types, a title and a category that are not empty,
    fit their arrays and hold no bar, newline or NUL. *)
Definition field_ok (n : nat) (f : string) : Prop :=
  f ≠ "" ∧ (String.length f <= n)%nat
  ∧ Forall plain (String.list_ascii_of_string f).

Definition saved_ok (t : task_t) : Prop :=
  is_int (id t) ∧ is_int (priority t)
  ∧ - 2 ^ 63 <= deadline t < 2 ^ 63
  ∧ field_ok 127 (title t) ∧ field_ok 31 (category t).

(** A saved line without its newline, from its five fields. *)
Definition line_body (i : Z) (ttl cat : string) (pr dl : Z) : string :=
  print_int i +:+ String bar (ttl +:+ String bar (cat
    +:+ String bar (print_int pr +:+ String bar (print_int dl)))).

(** The text [save_tasks] writes for a list of tasks. *)
Definition save_text (l : list task_t) : string :=
  foldr (λ t acc, format_line t +:+ acc) "" l.

(** The line [sscanf] gets for a task that was saved. *)
Definition line_of_task (t : task_t) : line :=
  Parsed (id t) (title t) (category t) (priority t) (deadline t).

(** The record of a line, as [load_tasks] stores it. *)
Definition task_of_line (l : line) : option task_t :=
  match l with
  | Parsed lid ltitle lcat lpr ldl =>
      Some (mk_task lid (strncpy 127 ltitle) (strncpy 31 lcat) lpr ldl)
  | Malformed => None
  end.

(** The id counter [load_tasks] computes over the records it stores. *)
Definition next_id_after (n : Z) (l : list task_t) : Z :=
  foldl (λ n t, if n <=? id t then wrap_int (id t + 1) else n) n l.

(** * Proofs *)

(** ** Array accesses at a natural index *)

(** The loop lemmas are stated for a start index [Z.of_nat k]; this brings
    an instance at [k = 0] to the form the operations have. *)
Ltac from_start H := change (Z.of_nat 0) with 0 in H; rewrite ?drop_0 in H.

Lemma rd_nat (arr : list task_t) (k : nat) : rd arr (Z.of_nat k) = arr !! k.
Proof.
  unfold rd. destruct (Z.leb_spec 0 (Z.of_nat k)); [|lia].
  by rewrite Nat2Z.id.
Qed.

Lemma wr_nat (arr : list task_t) (k : nat) (x : task_t) :
  (k < length arr)%nat → wr arr (Z.of_nat k) x = Some (<[k := x]> arr).
Proof.
  intros Hk. unfold wr.
  destruct (Z.leb_spec 0 (Z.of_nat k)); [|lia].
  destruct (Z.ltb_spec (Z.of_nat k) (Z.of_nat (length arr))); [|lia].
  by rewrite Nat2Z.id.
Qed.

Lemma wr_ok (arr : list task_t) (i : Z) (x : task_t) :
  0 <= i < Z.of_nat (length arr) → wr arr i x = Some (<[Z.to_nat i := x]> arr).
Proof.
  intros Hi. rewrite <- (Z2Nat.id i) at 1 by lia. rewrite wr_nat by lia. done.
Qed.

Lemma succ_nat (k : nat) : Z.of_nat k + 1 = Z.of_nat (S k).
Proof. lia. Qed.

Lemma slice_cons (arr : list task_t) (k n : nat) (t : task_t) :
  arr !! k = Some t → take (S n) (drop k arr) = t :: take n (drop (S k) arr).
Proof. intros H. by rewrite (drop_S _ _ _ H). Qed.

Lemma slice_lookup (arr : list task_t) (k n : nat) :
  (k + S n ≤ length arr)%nat → ∃ t, arr !! k = Some t.
Proof. intros H. apply lookup_lt_is_Some_2. lia. Qed.

(** ** The loops, as functions of the slice they walk over *)

Lemma view_loop_spec (arr : list task_t) (n : nat) : ∀ k : nat,
  (k + n ≤ length arr)%nat →
  view_loop n (Z.of_nat k) arr = Some (take n (drop k arr)).
Proof.
  induction n as [|n IH]; intros k Hk; simpl.
  - by rewrite take_0.
  - destruct (slice_lookup arr k n Hk) as [t Ht].
    rewrite rd_nat, Ht; simpl. rewrite succ_nat, IH by lia; simpl.
    by rewrite (slice_cons _ _ _ _ Ht).
Qed.

Lemma count_loop_spec (arr : list task_t) (tnow : Z) (n : nat) : ∀ (k : nat) (c : Z),
  (k + n ≤ length arr)%nat →
  count_loop n (Z.of_nat k) arr tnow c
  = Some (c + Z.of_nat (length (filter (due tnow) (take n (drop k arr))))).
Proof.
  induction n as [|n IH]; intros k c Hk; simpl.
  - f_equal. lia.
  - destruct (slice_lookup arr k n Hk) as [t Ht].
    rewrite rd_nat, Ht; simpl. rewrite succ_nat, IH by lia.
    rewrite (slice_cons _ _ _ _ Ht), filter_cons. f_equal.
    destruct (Z.leb_spec (deadline t) tnow); destruct (decide (due tnow t)) as [Hd|Hd];
      unfold due in Hd; simpl; lia.
Qed.

Lemma deadline_loop_due (arr : list task_t) (now : Z) (n : nat) : ∀ (k : nat) (best : Z),
  (k + n ≤ length arr)%nat →
  (∃ t, t ∈ take n (drop k arr) ∧ due now t) →
  deadline_loop n (Z.of_nat k) arr now best = Some now.
Proof.
  induction n as [|n IH]; intros k best Hk [t [Hin Hd]]; simpl.
  - rewrite take_0 in Hin. by apply elem_of_nil in Hin.
  - destruct (slice_lookup arr k n Hk) as [t0 Ht0].
    rewrite rd_nat, Ht0; simpl.
    destruct (Z.leb_spec (deadline t0) now) as [|Hfut]; [done|].
    rewrite succ_nat. apply IH; [lia|].
    rewrite (slice_cons _ _ _ _ Ht0) in Hin.
    apply elem_of_cons in Hin as [->|Hin]; [unfold due in Hd; lia|eauto].
Qed.

Lemma foldr_min_swap (ds : list Z) : ∀ a b : Z,
  Z.min b (foldr Z.min a ds) = Z.min a (foldr Z.min b ds).
Proof.
  induction ds as [|e ds IH]; intros a b; simpl; [lia|].
  specialize (IH a b). lia.
Qed.

Lemma min_deadline_cons (x d : Z) (ds : list Z) :
  min_deadline x (d :: ds) = Z.min x (min_deadline d ds).
Proof. unfold min_deadline. simpl. apply foldr_min_swap. Qed.

Lemma min_deadline_lower (d : Z) (ds : list Z) (b : Z) :
  b < d → Forall (Z.lt b) ds → b < min_deadline d ds.
Proof.
  intros Hd Hall. unfold min_deadline.
  induction Hall as [|e ds He _ IH]; simpl; lia.
Qed.

Lemma min_deadline_least (d : Z) (ds : list Z) :
  min_deadline d ds ∈ d :: ds ∧ Forall (Z.le (min_deadline d ds)) (d :: ds).
Proof.
  unfold min_deadline. induction ds as [|e ds [IHin IHle]]; simpl.
  - split; [left|]. repeat constructor. lia.
  - apply Forall_cons in IHle as [Hd Hds].
    destruct (Z.min_spec e (foldr Z.min d ds)) as [[Hlt ->]|[Hge ->]].
    + split; [right; left|].
      constructor; [lia|]. constructor; [lia|].
      eapply Forall_impl; [exact Hds|]. simpl. intros. lia.
    + split.
      * apply elem_of_cons in IHin as [->|Hin]; [left|right; by right].
      * constructor; [done|]. constructor; [lia|done].
Qed.

Lemma deadline_loop_future (arr : list task_t) (now : Z) (n : nat) : ∀ (k : nat) (best : Z),
  (k + n ≤ length arr)%nat →
  0 <= now → (best = 0 ∨ now < best) →
  Forall (future now) (take n (drop k arr)) →
  deadline_loop n (Z.of_nat k) arr now best
  = Some (match deadline <$> take n (drop k arr) with
          | [] => best
          | d :: ds => if best =? 0 then min_deadline d ds
                       else Z.min best (min_deadline d ds)
          end).
Proof.
  induction n as [|n IH]; intros k best Hk Hnow Hbest Hall; simpl.
  - done.
  - destruct (slice_lookup arr k n Hk) as [t Ht].
    rewrite (slice_cons _ _ _ _ Ht) in Hall |- *.
    apply Forall_cons in Hall as [Ht_fut Hall]. unfold future in Ht_fut.
    rewrite rd_nat, Ht; simpl.
    destruct (Z.leb_spec (deadline t) now); [lia|].
    rewrite succ_nat, IH; [|lia|done| |done].
    + f_equal. change (list_fmap task_t Z deadline) with (fmap (M:=list) deadline).
      destruct (deadline <$> take n (drop (S k) arr)) as [|d ds] eqn:E.
      * unfold min_deadline; simpl.
        destruct (Z.eqb_spec best 0); simpl; [done|].
        destruct (Z.ltb_spec (deadline t) best); lia.
      * rewrite min_deadline_cons.
        destruct (Z.eqb_spec best 0); simpl.
        -- destruct (Z.eqb_spec (deadline t) 0); [lia|]. done.
        -- destruct (Z.ltb_spec (deadline t) best).
           ++ destruct (Z.eqb_spec (deadline t) 0); [lia|]. lia.
           ++ destruct (Z.eqb_spec best 0); [lia|]. lia.
    + destruct (Z.eqb_spec best 0); simpl; [right; lia|].
      destruct (Z.ltb_spec (deadline t) best); right; lia.
Qed.

Lemma deadline_loop_least (arr : list task_t) (now : Z) (n : nat) : ∀ (k : nat) (best : Z),
  (k + n ≤ length arr)%nat →
  Forall (future now) (take n (drop k arr)) →
  Forall (λ t, deadline t ≠ 0) (take n (drop k arr)) →
  deadline_loop n (Z.of_nat k) arr now best
  = Some (match deadline <$> take n (drop k arr) with
          | [] => best
          | d :: ds => if best =? 0 then min_deadline d ds
                       else Z.min best (min_deadline d ds)
          end).
Proof.
  induction n as [|n IH]; intros k best Hk Hall Hnz; simpl.
  - done.
  - destruct (slice_lookup arr k n Hk) as [t Ht].
    rewrite (slice_cons _ _ _ _ Ht) in Hall, Hnz |- *.
    apply Forall_cons in Hall as [Ht_fut Hall]. unfold future in Ht_fut.
    apply Forall_cons in Hnz as [Ht_nz Hnz].
    rewrite rd_nat, Ht; simpl.
    destruct (Z.leb_spec (deadline t) now); [lia|].
    rewrite succ_nat, IH; [|lia|done|done].
    f_equal. change (list_fmap task_t Z deadline) with (fmap (M:=list) deadline).
    destruct (deadline <$> take n (drop (S k) arr)) as [|d ds] eqn:E.
    + unfold min_deadline; simpl.
      destruct (Z.eqb_spec best 0); simpl; [done|].
      destruct (Z.ltb_spec (deadline t) best); lia.
    + rewrite min_deadline_cons.
      destruct (Z.eqb_spec best 0); simpl.
      * destruct (Z.eqb_spec (deadline t) 0); [lia|]. done.
      * destruct (Z.ltb_spec (deadline t) best).
        -- destruct (Z.eqb_spec (deadline t) 0); [lia|]. lia.
        -- destruct (Z.eqb_spec best 0); [lia|]. lia.
Qed.

Lemma find_loop_spec (arr : list task_t) (key : Z) (n : nat) : ∀ k : nat,
  (k + n ≤ length arr)%nat →
  (find_loop n (Z.of_nat k) arr key = Some (-1)
   ∧ Forall (λ t, id t ≠ key) (take n (drop k arr)))
  ∨ (∃ (j : nat) (t : task_t),
       find_loop n (Z.of_nat k) arr key = Some (Z.of_nat (k + j))
       ∧ (j < n)%nat ∧ arr !! (k + j)%nat = Some t ∧ id t = key
       ∧ Forall (λ t, id t ≠ key) (take j (drop k arr))).
Proof.
  induction n as [|n IH]; intros k Hk; simpl.
  - left. split; [done|]. rewrite take_0. constructor.
  - destruct (slice_lookup arr k n Hk) as [t Ht].
    rewrite rd_nat, Ht; simpl.
    destruct (Z.eqb_spec (id t) key) as [Heq|Hne].
    + right. exists 0%nat, t. rewrite Nat.add_0_r, take_0.
      repeat split; [lia|done|done|constructor].
    + rewrite succ_nat. rewrite (slice_cons _ _ _ _ Ht).
      destruct (IH (S k)) as [[-> Hall]|(j & u & -> & Hj & Hu & Hid & Hall)]; [lia| |].
      * left. split; [done|]. by constructor.
      * right. exists (S j), u.
        replace (k + S j)%nat with (S k + j)%nat by lia.
        rewrite (slice_cons _ _ _ _ Ht).
        repeat split; [lia|done|done|by constructor].
Qed.

Lemma shift_loop_spec (n : nat) : ∀ (arr : list task_t) (k : nat),
  (k + n < length arr)%nat →
  shift_loop n (Z.of_nat k) arr
  = Some (take k arr ++ take n (drop (S k) arr) ++ drop (k + n) arr).
Proof.
  induction n as [|n IH]; intros arr k Hk; simpl.
  - by rewrite Nat.add_0_r, take_drop.
  - destruct (lookup_lt_is_Some_2 arr (S k)) as [t Ht]; [lia|].
    rewrite succ_nat, rd_nat, Ht; simpl.
    rewrite wr_nat by lia; simpl.
    rewrite IH by (rewrite length_insert; lia). f_equal.
    rewrite !drop_insert_lt by lia.
    rewrite (take_S_r (<[k:=t]> arr) k t) by (apply list_lookup_insert_eq; lia).
    rewrite take_insert_ge by lia.
    rewrite (slice_cons _ _ _ _ Ht).
    rewrite <- app_assoc. simpl. replace (k + S n)%nat with (S (k + n)) by lia. done.
Qed.

Lemma partition_loop_spec (tnow : Z) (n : nat) :
  ∀ (arr copies : list task_t) (k c w : nat),
  (w ≤ k)%nat → (k + n ≤ length arr)%nat →
  (c + length (filter (due tnow) (take n (drop k arr))) ≤ length copies)%nat →
  ∃ arr' copies',
    partition_loop n (Z.of_nat k) tnow arr copies (Z.of_nat c) (Z.of_nat w)
    = Some (arr', copies',
            Z.of_nat (c + length (filter (due tnow) (take n (drop k arr)))),
            Z.of_nat (w + length (filter (future tnow) (take n (drop k arr)))))
    ∧ length arr' = length arr
    ∧ length copies' = length copies
    ∧ take (w + length (filter (future tnow) (take n (drop k arr)))) arr'
      = take w arr ++ filter (future tnow) (take n (drop k arr))
    ∧ take (c + length (filter (due tnow) (take n (drop k arr)))) copies'
      = take c copies ++ filter (due tnow) (take n (drop k arr)).
Proof.
  induction n as [|n IH]; intros arr copies k c w Hw Hk Hc.
  - exists arr, copies. simpl. rewrite !Nat.add_0_r, !app_nil_r. done.
  - destruct (slice_lookup arr k n Hk) as [t Ht].
    rewrite (slice_cons _ _ _ _ Ht) in Hc |- *.
    simpl partition_loop. rewrite rd_nat, Ht; simpl.
    rewrite (filter_cons (due tnow)) in Hc |- *.
    rewrite (filter_cons (future tnow)).
    destruct (Z.leb_spec (deadline t) tnow) as [Hdue|Hfut].
    + rewrite (decide_True (P := due tnow t)) in Hc |- * by done.
      rewrite (decide_False (P := future tnow t)) by (unfold future; lia).
      simpl length in Hc |- *.
      rewrite wr_nat by lia; simpl. rewrite !succ_nat.
      destruct (IH arr (<[c:=t]> copies) (S k) (S c) w) as
        (arr' & copies' & Hrun & Hlen & Hlenc & Harr & Hcop);
        [lia|lia|rewrite length_insert; lia|].
      exists arr', copies'.
      replace (c + S (length (filter (due tnow) (take n (drop (S k) arr)))))%nat
        with (S c + length (filter (due tnow) (take n (drop (S k) arr))))%nat by lia.
      rewrite Hrun, Hlen, Hlenc, Harr, Hcop, length_insert.
      repeat split; try done.
      rewrite (take_S_r (<[c:=t]> copies) c t) by (apply list_lookup_insert_eq; lia).
      rewrite take_insert_ge by lia. by rewrite <- app_assoc.
    + rewrite (decide_False (P := due tnow t)) in Hc |- * by (unfold due; lia).
      rewrite (decide_True (P := future tnow t)) by done.
      simpl length.
      rewrite wr_nat by lia; simpl. rewrite !succ_nat.
      destruct (IH (<[w:=t]> arr) copies (S k) c (S w)) as
        (arr' & copies' & Hrun & Hlen & Hlenc & Harr & Hcop);
        [lia|rewrite length_insert; lia|rewrite drop_insert_lt by lia; lia|].
      rewrite drop_insert_lt in Hrun, Harr, Hcop by lia.
      exists arr', copies'.
      replace (w + S (length (filter (future tnow) (take n (drop (S k) arr)))))%nat
        with (S w + length (filter (future tnow) (take n (drop (S k) arr))))%nat by lia.
      rewrite Hrun, Hlen, Hlenc, Harr, Hcop, length_insert.
      repeat split; try done.
      rewrite (take_S_r (<[w:=t]> arr) w t) by (apply list_lookup_insert_eq; lia).
      rewrite take_insert_ge by lia. by rewrite <- app_assoc.
Qed.

(** ** The operations, in terms of the live tasks *)

Lemma store_ok_count (s : store) :
  store_ok s →
  ∃ m : nat, task_count s = Z.of_nat m ∧ (m ≤ length (tasks s))%nat
             ∧ live s = take m (tasks s) ∧ length (live s) = m.
Proof.
  intros [Hlen [Hlo Hhi]]. exists (Z.to_nat (task_count s)).
  unfold live. rewrite length_take. rewrite Hlen. unfold MAX_TASKS in *.
  repeat split; lia.
Qed.

Lemma filter_due_nil (tnow : Z) (l : list task_t) :
  filter (due tnow) l = [] → filter (future tnow) l = l.
Proof.
  induction l as [|t l IH]; [done|].
  rewrite (filter_cons (due tnow)), (filter_cons (future tnow)).
  destruct (decide (due tnow t)) as [Hd|Hd]; [done|].
  intros H. rewrite decide_True by (unfold due, future in *; lia).
  by rewrite IH.
Qed.

Lemma filter_future_due (tnow : Z) (l : list task_t) :
  filter (due tnow) (filter (future tnow) l) = [].
Proof.
  induction l as [|t l IH]; [done|].
  rewrite (filter_cons (future tnow)).
  destruct (decide (future tnow t)) as [Hf|Hf]; [|done].
  rewrite (filter_cons (due tnow)).
  by rewrite decide_False by (unfold due, future in *; lia).
Qed.

Lemma view_tasks_spec (s : store) : store_ok s → view_tasks s = Some (live s).
Proof.
  intros Hok. destruct (store_ok_count s Hok) as (m & Hm & Hle & Hlive & _).
  unfold view_tasks. rewrite Hm, Nat2Z.id, Hlive.
  pose proof (view_loop_spec (tasks s) m 0%nat Hle) as H.
  from_start H. by rewrite H.
Qed.

Lemma extract_due_spec (fill : task_t) (tnow : Z) (s : store) :
  store_ok s →
  ∃ s' b,
    extract_due fill tnow s = Some (s', b)
    ∧ live s' = filter (future tnow) (live s)
    ∧ batch_tasks b = filter (due tnow) (live s)
    ∧ next_id s' = next_id s
    ∧ length (tasks s') = length (tasks s)
    ∧ task_count s' = Z.of_nat (length (filter (future tnow) (live s)))
    ∧ (filter (due tnow) (live s) = [] → s' = s ∧ b = None)
    ∧ (∀ dc, b = Some dc →
         count dc = Z.of_nat (length (items dc)) ∧ 0 < count dc).
Proof.
  intros Hok. destruct (store_ok_count s Hok) as (m & Hm & Hle & Hlive & Hlen).
  unfold extract_due. rewrite Hm, Nat2Z.id.
  pose proof (count_loop_spec (tasks s) tnow m 0%nat 0 Hle) as Hcount.
  from_start Hcount. rewrite Hcount, <- Hlive, Z.add_0_l. clear Hcount.
  cbn [mbind option_bind].
  destruct (filter (due tnow) (live s)) as [|d ds] eqn:Hdue.
  - change (Z.of_nat (length [])) with 0. cbn [Z.eqb].
    exists s, None. repeat split; try done.
    + by rewrite filter_due_nil.
    + rewrite filter_due_nil by done. lia.
  - set (D := length (d :: ds)).
    assert (HD : (0 < D)%nat) by (unfold D; simpl; lia).
    destruct (Z.eqb_spec (Z.of_nat D) 0) as [|_]; [lia|].
    rewrite Nat2Z.id.
    destruct (partition_loop_spec tnow m (tasks s) (replicate D fill) 0 0 0)
      as (arr' & copies' & Hrun & Hlena & Hlenc & Harr & Hcop).
    { lia. } { simpl; lia. }
    { rewrite drop_0, <- Hlive, Hdue, length_replicate. unfold D. simpl. lia. }
    rewrite drop_0, <- Hlive in Hrun, Harr, Hcop.
    rewrite Hdue in Hrun, Hcop.
    change (Z.of_nat 0) with 0 in Hrun.
    rewrite !Nat.add_0_l in Hrun, Harr, Hcop. fold D in Hrun, Hcop.
    rewrite take_0, app_nil_l in Harr, Hcop.
    rewrite Hrun. cbn [mbind option_bind].
    eexists _, _. split; [reflexivity|].
    rewrite length_replicate in Hlenc.
    assert (Hwf : ∀ dc, Some (mk_due copies' (Z.of_nat D)) = Some dc →
                    count dc = Z.of_nat (length (items dc)) ∧ 0 < count dc).
    { intros dc [= <-]. cbn [items count]. lia. }
    repeat split; cbn [tasks task_count next_id batch_tasks items count];
      try done; try (by apply Hwf).
    + unfold live; cbn [tasks task_count]. by rewrite Nat2Z.id.
    + by rewrite Nat2Z.id.
Qed.

Lemma delete_task_spec (key : Z) (s : store) :
  store_ok s →
  (delete_task key s = Some (s, false) ∧ Forall (λ t, id t ≠ key) (live s))
  ∨ (∃ (j : nat) (t : task_t) (arr' : list task_t),
       delete_task key s
       = Some (mk_store arr' (task_count s - 1) (next_id s), true)
       ∧ live s !! j = Some t ∧ id t = key
       ∧ Forall (λ t, id t ≠ key) (take j (live s))
       ∧ length arr' = length (tasks s)
       ∧ take (Z.to_nat (task_count s - 1)) arr' = delete j (live s)).
Proof.
  intros Hok. destruct (store_ok_count s Hok) as (m & Hm & Hle & Hlive & Hlen).
  unfold delete_task. rewrite Hm, Nat2Z.id.
  pose proof (find_loop_spec (tasks s) key m 0 Hle) as Hfind.
  from_start Hfind.
  destruct Hfind as [[-> Hall]|(j & t & -> & Hj & Ht & Hid & Hall)].
  - left. simpl. by rewrite <- Hlive in Hall.
  - right. rewrite Nat.add_0_l in Ht |- *. cbn [mbind option_bind].
    destruct (Z.eqb_spec (Z.of_nat j) (-1)) as [|_]; [lia|].
    replace (Z.to_nat (Z.of_nat m - 1 - Z.of_nat j)) with (m - 1 - j)%nat by lia.
    rewrite shift_loop_spec by lia. simpl.
    eexists j, t, _. split; [reflexivity|].
    assert (Hlj : length (take j (tasks s)) = j) by (rewrite length_take; lia).
    assert (Hln : length (take (m - 1 - j) (drop (S j) (tasks s))) = (m - 1 - j)%nat)
      by (rewrite length_take, length_drop; lia).
    repeat split.
    + rewrite Hlive. rewrite lookup_take_lt by lia. done.
    + done.
    + rewrite Hlive, take_take. by replace (j `min` m)%nat with j by lia.
    + rewrite !length_app, Hlj, Hln, length_drop. lia.
    + replace (Z.to_nat (Z.of_nat m - 1)) with (j + (m - 1 - j))%nat by lia.
      rewrite app_assoc, take_app_length'
        by (rewrite length_app, Hlj, Hln; done).
      rewrite Hlive, delete_take_drop, take_take.
      replace (j `min` m)%nat with j by lia. f_equal.
      rewrite take_drop_commute. do 2 f_equal. lia.
Qed.

Lemma add_task_full (ttl cat : string) (pr dl : Z) (s : store) :
  MAX_TASKS <= task_count s →
  add_task ttl cat pr dl s = Some (s, CapacityExceeded).
Proof.
  intros H. unfold add_task. by destruct (Z.leb_spec MAX_TASKS (task_count s)); [|lia].
Qed.

Lemma add_task_room (ttl cat : string) (pr dl : Z) (s : store) :
  store_ok s → task_count s < MAX_TASKS →
  ∃ arr',
    add_task ttl cat pr dl s
    = Some (mk_store arr' (task_count s + 1) (wrap_int (next_id s + 1)),
            Added (next_id s))
    ∧ length arr' = length (tasks s)
    ∧ take (Z.to_nat (task_count s + 1)) arr'
      = live s ++ [mk_task (next_id s) (strncpy 127 ttl) (strncpy 31 cat) pr dl].
Proof.
  intros Hok Hroom.
  destruct (store_ok_count s Hok) as (m & Hm & Hle & Hlive & Hlen).
  destruct Hok as [Harr _]. unfold MAX_TASKS in *.
  unfold add_task, MAX_TASKS.
  destruct (Z.leb_spec 256 (task_count s)); [lia|].
  rewrite Hm in *. rewrite wr_nat by lia. simpl.
  eexists. split; [reflexivity|]. rewrite length_insert. split; [done|].
  replace (Z.to_nat (Z.of_nat m + 1)) with (S m) by lia.
  rewrite (take_S_r _ m (mk_task (next_id s) (strncpy 127 ttl) (strncpy 31 cat) pr dl))
    by (apply list_lookup_insert_eq; lia).
  rewrite take_insert_ge by lia. by rewrite Hlive.
Qed.

Lemma next_deadline_empty (s : store) (now : Z) :
  task_count s = 0 → next_deadline s now = Some 0.
Proof. intros H. unfold next_deadline. by rewrite H. Qed.

Lemma next_deadline_due (s : store) (now : Z) (t : task_t) :
  store_ok s → t ∈ live s → due now t → next_deadline s now = Some now.
Proof.
  intros Hok Hin Hd.
  destruct (store_ok_count s Hok) as (m & Hm & Hle & Hlive & _).
  unfold next_deadline. rewrite Hm, Nat2Z.id.
  pose proof (deadline_loop_due (tasks s) now m 0%nat 0 Hle) as H.
  from_start H. rewrite <- Hlive in H.
  apply H. eauto.
Qed.

Lemma next_deadline_future (s : store) (now : Z) (t : task_t) (l : list task_t) :
  store_ok s → 0 <= now → live s = t :: l → Forall (future now) (live s) →
  next_deadline s now = Some (min_deadline (deadline t) (deadline <$> l)).
Proof.
  intros Hok Hnow Hcons Hall.
  destruct (store_ok_count s Hok) as (m & Hm & Hle & Hlive & _).
  unfold next_deadline. rewrite Hm, Nat2Z.id.
  pose proof (deadline_loop_future (tasks s) now m 0%nat 0 Hle Hnow) as H.
  from_start H. rewrite <- Hlive in H.
  rewrite H by (by left || done). by rewrite Hcons.
Qed.

Lemma next_deadline_least (s : store) (now : Z) (t : task_t) (l : list task_t) :
  store_ok s → live s = t :: l → Forall (future now) (live s) →
  Forall (λ t, deadline t ≠ 0) (live s) →
  next_deadline s now = Some (min_deadline (deadline t) (deadline <$> l)).
Proof.
  intros Hok Hcons Hall Hnz.
  destruct (store_ok_count s Hok) as (m & Hm & Hle & Hlive & _).
  unfold next_deadline. rewrite Hm, Nat2Z.id.
  pose proof (deadline_loop_least (tasks s) now m 0%nat 0 Hle) as H.
  from_start H. rewrite <- Hlive in H.
  rewrite H by done. by rewrite Hcons.
Qed.

Lemma future_nonzero (now : Z) (l : list task_t) :
  0 <= now ∨ Forall (λ t, deadline t ≠ 0) l →
  Forall (future now) l → Forall (λ t, deadline t ≠ 0) l.
Proof.
  intros [Hnow|Hnz] Hall; [|done].
  eapply Forall_impl; [exact Hall|]. unfold future. cbv beta. intros t Ht. lia.
Qed.

Lemma deadline_loop_total (arr : list task_t) (now : Z) (n : nat) :
  ∀ (k : nat) (best : Z),
  (k + n ≤ length arr)%nat →
  ∃ nd, deadline_loop n (Z.of_nat k) arr now best = Some nd.
Proof.
  induction n as [|n IH]; intros k best Hk; simpl; [eauto|].
  destruct (slice_lookup arr k n Hk) as [t Ht].
  rewrite rd_nat, Ht. simpl.
  destruct (deadline t <=? now); [eauto|].
  rewrite succ_nat. apply IH. lia.
Qed.

Lemma next_deadline_total (s : store) (now : Z) :
  store_ok s → ∃ nd, next_deadline s now = Some nd.
Proof.
  intros Hok. destruct (store_ok_count s Hok) as (m & Hm & Hle & _).
  unfold next_deadline. rewrite Hm, Nat2Z.id.
  apply (deadline_loop_total (tasks s) now m 0%nat 0 Hle).
Qed.

(** ** [store_ok] is kept by every operation *)

Lemma init_store_ok : store_ok init_store.
Proof. split; [apply length_replicate|]. unfold MAX_TASKS. simpl. lia. Qed.

Lemma load_loop_ok (lines : list line) : ∀ s,
  store_ok s → ∃ s', load_loop lines s = Some s' ∧ store_ok s'.
Proof.
  induction lines as [|l rest IH]; intros s Hok; simpl.
  - eauto.
  - destruct (Z.ltb_spec (task_count s) MAX_TASKS) as [Hlt|Hge]; [|eauto].
    destruct l as [lid ltitle lcat lpr ldl|]; [|by apply IH].
    destruct Hok as [Hlen [Hlo Hhi]].
    rewrite wr_ok by (rewrite Hlen; unfold MAX_TASKS in *; lia).
    cbn [mbind option_bind].
    apply IH. split; cbn [tasks task_count]; [by rewrite length_insert|lia].
Qed.

Lemma load_tasks_ok (file : option (list line)) (s : store) :
  store_ok s → ∃ s', load_tasks file s = Some s' ∧ store_ok s'.
Proof.
  intros Hok. destruct file as [lines|]; simpl; [|eauto].
  apply load_loop_ok. destruct Hok as [Hlen _].
  split; [done|]. unfold MAX_TASKS. simpl. lia.
Qed.

Lemma add_task_ok (ttl cat : string) (pr dl : Z) (s : store) :
  store_ok s → ∃ s' r, add_task ttl cat pr dl s = Some (s', r) ∧ store_ok s'.
Proof.
  intros Hok. destruct (Z.le_gt_cases MAX_TASKS (task_count s)) as [Hfull|Hroom].
  - rewrite add_task_full by done. eauto.
  - destruct (add_task_room ttl cat pr dl s Hok) as (arr' & -> & Hlen & _); [lia|].
    eexists _, _. split; [done|]. destruct Hok as [Hl [Hlo Hhi]].
    split; cbn [tasks task_count]; [congruence|lia].
Qed.

Lemma delete_task_ok (key : Z) (s : store) :
  store_ok s → ∃ s' found, delete_task key s = Some (s', found) ∧ store_ok s'.
Proof.
  intros Hok.
  destruct (delete_task_spec key s Hok) as
    [[-> _]|(j & t & arr' & -> & Hj & _ & _ & Hlen & _)]; [eauto|].
  eexists _, _. split; [done|].
  destruct (store_ok_count s Hok) as (m & Hm & _ & _ & Hm').
  apply lookup_lt_Some in Hj. destruct Hok as [Hl [Hlo Hhi]].
  split; cbn [tasks task_count]; [congruence|lia].
Qed.

Lemma extract_due_ok (fill : task_t) (tnow : Z) (s : store) :
  store_ok s → ∃ s' b, extract_due fill tnow s = Some (s', b) ∧ store_ok s'.
Proof.
  intros Hok.
  destruct (extract_due_spec fill tnow s Hok) as
    (s' & b & -> & _ & _ & _ & Hlen & Hcount & _).
  exists s', b. split; [done|].
  destruct (store_ok_count s Hok) as (m & Hm & _ & _ & Hm').
  pose proof (length_filter (future tnow) (live s)).
  destruct Hok as [Hl [Hlo Hhi]]. split; [congruence|lia].
Qed.

(** ** One step of a run *)

Lemma run_op_spec (o : op) (s : store) :
  store_ok s →
  ∃ s' r,
    run_op o s = Some (s', r) ∧ store_ok s'
    ∧ ((∃ t, r = OAdded (next_id s) ∧ task_of_add o (next_id s) = Some t
             ∧ live s' = live s ++ [t]
             ∧ next_id s' = wrap_int (next_id s + 1))
       ∨ ((∀ i, r ≠ OAdded i) ∧ (∀ i, task_of_add o i = None ∨ r = ORejected)
          ∧ next_id s' = next_id s ∧ live s' `sublist_of` live s)).
Proof.
  intros Hok. destruct o as [ttl cat pr dl|key| |now|fill tnow|b]; simpl.
  - destruct (Z.le_gt_cases MAX_TASKS (task_count s)) as [Hfull|Hroom].
    + rewrite add_task_full by done. simpl. eexists _, _.
      split; [done|]. split; [done|]. right. repeat split; auto; done.
    + destruct (add_task_room ttl cat pr dl s Hok) as (arr' & Hrun & Hlen & Hlive); [lia|].
      rewrite Hrun. simpl. eexists _, _. split; [done|].
      split.
      { destruct Hok as [Hl [Hlo Hhi]]. split; cbn [tasks task_count]; [congruence|lia]. }
      left. eexists. repeat split; try done.
  - destruct (delete_task_ok key s Hok) as (s' & found & Hrun & Hok').
    rewrite Hrun. simpl. exists s', (ODeleted found). split; [done|]. split; [done|].
    right.
    destruct (delete_task_spec key s Hok) as
      [[Hrun' _]|(j & t & arr' & Hrun' & _ & _ & _ & _ & Hlive)];
      rewrite Hrun' in Hrun; injection Hrun as <- <-.
    + repeat split; auto; done.
    + repeat split; auto; try done.
      unfold live at 1; cbn [tasks task_count]. rewrite Hlive. apply sublist_delete.
  - rewrite view_tasks_spec by done. simpl. eexists _, _.
    split; [done|]. split; [done|]. right. repeat split; auto; done.
  - destruct (next_deadline_total s now Hok) as [nd ->].
    simpl. eexists _, _. split; [done|]. split; [done|].
    right. repeat split; auto; done.
  - destruct (extract_due_spec fill tnow s Hok) as
      (s' & b & Hrun & Hlive & _ & Hnext & _).
    destruct (extract_due_ok fill tnow s Hok) as (s'' & b' & Hrun' & Hok').
    rewrite Hrun in Hrun'. injection Hrun' as <- <-.
    rewrite Hrun. simpl. eexists _, _. split; [done|]. split; [done|].
    right. repeat split; auto; try done.
    rewrite Hlive. apply sublist_filter.
  - eexists _, _. split; [done|]. split; [done|].
    right. repeat split; auto; done.
Qed.

(** ** The trace of a reminder thread *)

Lemma detail_loop_spec (its : list task_t) (n : nat) : ∀ k : nat,
  (k + n ≤ length its)%nat →
  detail_loop n (Z.of_nat k) its = Some (EDetail <$> take n (drop k its)).
Proof.
  induction n as [|n IH]; intros k Hk; simpl; [done|].
  destruct (slice_lookup its k n Hk) as [t Ht].
  rewrite rd_nat, Ht; simpl. rewrite succ_nat, IH by lia; simpl.
  by rewrite (drop_S _ _ _ Ht).
Qed.

Lemma announce_loop_spec (its : list task_t) (secs : Z) (n : nat) : ∀ k : nat,
  (k + n ≤ length its)%nat →
  announce_loop n (Z.of_nat k) its secs
  = Some (stage_message secs <$> take n (drop k its)).
Proof.
  induction n as [|n IH]; intros k Hk; simpl; [done|].
  destruct (slice_lookup its k n Hk) as [t Ht].
  rewrite rd_nat, Ht; simpl. rewrite succ_nat, IH by lia; simpl.
  by rewrite (drop_S _ _ _ Ht).
Qed.

Lemma reminder_thread_fn_spec (dc : due_copy_t) :
  0 < count dc <= Z.of_nat (length (items dc)) →
  reminder_thread_fn (Some dc)
  = Some (EHeader (count dc) :: (EDetail <$> batch_tasks (Some dc))
          ++ (ESleep 30 :: (stage_message 30 <$> batch_tasks (Some dc))
              ++ ESleep 10 :: (stage_message 20 <$> batch_tasks (Some dc))
              ++ ESleep 15 :: (stage_message 5 <$> batch_tasks (Some dc))
              ++ ESleep 4 :: (stage_message 1 <$> batch_tasks (Some dc))
              ++ ESleep 1 :: (stage_message 0 <$> batch_tasks (Some dc)) ++ [])
          ++ [EFinished]).
Proof.
  intros [Hpos Hle]. unfold reminder_thread_fn.
  destruct (Z.leb_spec (count dc) 0); [lia|].
  assert (Hn : (0 + Z.to_nat (count dc) ≤ length (items dc))%nat) by lia.
  pose proof (detail_loop_spec (items dc) _ 0%nat Hn) as Hd.
  from_start Hd.
  rewrite Hd. cbn [mbind option_bind stage_loop intervals announce_secs].
  assert (Ha : ∀ secs, announce_loop (Z.to_nat (count dc)) 0 (items dc) secs
                 = Some (stage_message secs <$> take (Z.to_nat (count dc)) (items dc))).
  { intros secs.
    pose proof (announce_loop_spec (items dc) secs _ 0%nat Hn) as Ha.
    by from_start Ha. }
  simpl. rewrite !Ha. simpl. done.
Qed.

Lemma timeline_app (l1 l2 : list event) : ∀ t : Z,
  timeline t (l1 ++ l2) = timeline t l1 ++ timeline (t + elapsed l1) l2.
Proof.
  induction l1 as [|e l1 IH]; intros t.
  - simpl. f_equal. unfold elapsed. simpl. lia.
  - destruct e; simpl; rewrite IH; unfold elapsed; simpl; try done.
    do 2 f_equal. lia.
Qed.

Lemma timeline_details (t : Z) (l : list task_t) :
  timeline t (EDetail <$> l) = (λ x, (t, EDetail x)) <$> l
  ∧ elapsed (EDetail <$> l) = 0.
Proof.
  induction l as [|x l [IH1 IH2]]; [done|].
  rewrite !fmap_cons. cbn [timeline]. split; [by rewrite IH1|exact IH2].
Qed.

Lemma timeline_stage (t secs : Z) (l : list task_t) :
  timeline t (stage_message secs <$> l) = stage_at t secs l
  ∧ elapsed (stage_message secs <$> l) = 0.
Proof.
  unfold stage_at, stage_message.
  destruct (0 <? secs); (induction l as [|x l [IH1 IH2]]; [done|]);
    rewrite !fmap_cons; cbn [timeline]; (split; [by rewrite IH1|exact IH2]).
Qed.

Lemma filter_details (t : Z) (l : list task_t) :
  List.filter (λ p : Z * event, is_announcement p.2) ((λ x, (t, EDetail x)) <$> l) = [].
Proof. induction l as [|x l IH]; [done|]. rewrite fmap_cons. exact IH. Qed.

Lemma filter_stage (t secs : Z) (l : list task_t) :
  List.filter (λ p : Z * event, is_announcement p.2) (stage_at t secs l)
  = stage_at t secs l.
Proof.
  unfold stage_at, stage_message.
  destruct (0 <? secs); (induction l as [|x l IH]; [done|]);
    rewrite fmap_cons; cbn [List.filter snd is_announcement]; by rewrite IH.
Qed.

Lemma sleeps_stage (secs : Z) (l : list task_t) :
  sleeps (stage_message secs <$> l) = [].
Proof.
  unfold stage_message.
  destruct (0 <? secs); (induction l as [|x l IH]; [done|]);
    rewrite fmap_cons; exact IH.
Qed.

Lemma sleeps_details (l : list task_t) : sleeps (EDetail <$> l) = [].
Proof. induction l as [|x l IH]; [done|]. rewrite fmap_cons. exact IH. Qed.

Lemma sleeps_app (l1 l2 : list event) : sleeps (l1 ++ l2) = sleeps l1 ++ sleeps l2.
Proof. unfold sleeps. apply omap_app. Qed.

(** ** Runs *)

Lemma wrap_int_id (z : Z) : INT_MIN <= z <= INT_MAX → wrap_int z = z.
Proof.
  unfold wrap_int, INT_MIN, INT_MAX. intros H.
  rewrite Z.mod_small; lia.
Qed.

Lemma count_adds_nonneg (ops : list op) : 0 <= count_adds ops.
Proof. induction ops as [|[] ops IH]; simpl; lia. Qed.

Lemma run_ops_total (ops : list op) : ∀ s,
  store_ok s →
  ∃ s' log,
    run_ops ops s = Some (s', log) ∧ store_ok s'
    ∧ (∀ x, x ∈ live s' → x ∈ live s ∨ x ∈ added_tasks ops log)
    ∧ id <$> added_tasks ops log = added_ids log.
Proof.
  induction ops as [|o ops IH]; intros s Hok.
  - exists s, []. simpl. split; [done|]. split; [done|]. split; [auto|done].
  - destruct (run_op_spec o s Hok) as (s1 & r & Hrun & Hok1 & Hcase).
    destruct (IH s1 Hok1) as (s2 & log & Hrest & Hok2 & Hprov & Hids).
    exists s2, (r :: log). split.
    { cbn [run_ops]. rewrite Hrun. simpl. rewrite Hrest. done. }
    split; [done|].
    destruct Hcase as [(t & -> & Ht & Hlive & Hnext)|(Hr & Hnone & Hnext & Hsub)].
    + cbn [added_tasks added_ids]. rewrite Ht. split.
      * intros x Hx. destruct (Hprov x Hx) as [Hin|Hin].
        -- rewrite Hlive in Hin. apply elem_of_app in Hin as [Hin|Hin]; [by left|].
           apply list_elem_of_singleton in Hin as ->. right. left.
        -- right. by right.
      * rewrite fmap_cons, Hids. f_equal.
        destruct o; simpl in Ht; try done. by injection Ht as <-.
    + assert (added_tasks (o :: ops) (r :: log) = added_tasks ops log) as ->.
      { destruct r; try done. by destruct (Hr new_id). }
      assert (added_ids (r :: log) = added_ids log) as ->.
      { destruct r; try done. by destruct (Hr new_id). }
      split; [|done].
      intros x Hx. destruct (Hprov x Hx) as [Hin|Hin]; [left|by right].
      by eapply elem_of_sublist.
Qed.

Lemma run_ops_ids (ops : list op) : ∀ s,
  store_ok s → INT_MIN <= next_id s →
  next_id s + count_adds ops <= INT_MAX + 1 →
  ∀ s' log, run_ops ops s = Some (s', log) →
  StronglySorted Z.lt (added_ids log)
  ∧ Forall (λ i, next_id s <= i < next_id s + count_adds ops) (added_ids log).
Proof.
  induction ops as [|o ops IH]; intros s Hok Hlo Hhi s' log Hrun.
  - injection Hrun as <- <-. simpl. split; constructor.
  - simpl in Hrun.
    destruct (run_op_spec o s Hok) as (s1 & r & Hrun1 & Hok1 & Hcase).
    rewrite Hrun1 in Hrun. simpl in Hrun.
    destruct (run_ops ops s1) as [[s2 log2]|] eqn:Hrest; [|done].
    simpl in Hrun. injection Hrun as <- <-.
    pose proof (count_adds_nonneg ops) as Hnn.
    destruct Hcase as [(t & -> & Ht & Hlive & Hnext)|(Hr & Hnone & Hnext & Hsub)].
    + assert (Hcount : count_adds (o :: ops) = 1 + count_adds ops)
        by (destruct o; simpl in Ht |- *; done).
      rewrite Hcount in *. simpl.
      destruct (Z.eq_dec (next_id s) INT_MAX) as [Hmax|Hlt].
      * assert (Hzero : count_adds ops = 0) by lia.
        assert (Hn1 : next_id s1 = INT_MIN)
          by (rewrite Hnext, Hmax; reflexivity).
        destruct (IH s1 Hok1) with (s' := s2) (log := log2) as [_ Hall];
          [lia|rewrite Hn1, Hzero; unfold INT_MIN, INT_MAX; lia|done|].
        assert (added_ids log2 = []) as ->.
        { destruct (added_ids log2) as [|i l]; [done|].
          apply Forall_cons in Hall as [Hi _]. lia. }
        split; repeat constructor; lia.
      * assert (Hn1 : next_id s1 = next_id s + 1)
          by (rewrite Hnext; apply wrap_int_id; unfold INT_MAX in *; lia).
        destruct (IH s1 Hok1) with (s' := s2) (log := log2) as [Hsort Hall];
          [lia|lia|done|].
        split.
        -- constructor; [done|].
           eapply Forall_impl; [exact Hall|]. simpl. intros i Hi. lia.
        -- constructor; [lia|].
           eapply Forall_impl; [exact Hall|]. simpl. intros i Hi. lia.
    + assert (Hcount : count_adds ops <= count_adds (o :: ops))
        by (destruct o; simpl; lia).
      assert (added_ids (r :: log2) = added_ids log2) as ->.
      { destruct r; try done. by destruct (Hr new_id). }
      destruct (IH s1 Hok1) with (s' := s2) (log := log2) as [Hsort Hall];
        [lia|lia|done|].
      split; [done|].
      eapply Forall_impl; [exact Hall|]. cbv beta. intros i Hi. lia.
Qed.

Lemma run_ops_accepted (ops : list op) : ∀ s,
  store_ok s → INT_MIN <= next_id s →
  ∀ s' log, run_ops ops s = Some (s', log) →
  next_id s + Z.of_nat (length (added_ids log)) <= INT_MAX + 1 →
  StronglySorted Z.lt (added_ids log)
  ∧ Forall (λ i, next_id s <= i < next_id s + Z.of_nat (length (added_ids log)))
      (added_ids log)
  ∧ (next_id s + Z.of_nat (length (added_ids log)) <= INT_MAX →
     next_id s' = next_id s + Z.of_nat (length (added_ids log))).
Proof.
  induction ops as [|o ops IH]; intros s Hok Hlo s' log Hrun Hhi.
  - injection Hrun as <- <-. simpl. split; [constructor|]. split; [constructor|lia].
  - simpl in Hrun.
    destruct (run_op_spec o s Hok) as (s1 & r & Hrun1 & Hok1 & Hcase).
    rewrite Hrun1 in Hrun. simpl in Hrun.
    destruct (run_ops ops s1) as [[s2 log2]|] eqn:Hrest; [|done].
    simpl in Hrun. injection Hrun as <- <-.
    destruct Hcase as [(t & -> & Ht & Hlive & Hnext)|(Hr & Hnone & Hnext & Hsub)].
    + cbn [added_ids length] in Hhi |- *.
      destruct (Z.eq_dec (next_id s) INT_MAX) as [Hmax|Hlt].
      * assert (added_ids log2 = []) as ->
          by (destruct (added_ids log2); [done|cbn [length] in Hhi; lia]).
        split; [repeat constructor|]. split; [|cbn [length]; lia].
        repeat constructor; cbn [length]; lia.
      * assert (Hn1 : next_id s1 = next_id s + 1)
          by (rewrite Hnext; apply wrap_int_id; unfold INT_MAX in *; lia).
        destruct (IH s1 Hok1) with (s' := s2) (log := log2) as (Hsort & Hall & Hend);
          [lia|done|lia|].
        split; [|split].
        -- constructor; [done|].
           eapply Forall_impl; [exact Hall|]. simpl. intros i Hi. lia.
        -- constructor; [lia|].
           eapply Forall_impl; [exact Hall|]. simpl. intros i Hi. lia.
        -- intros Hroom. rewrite Hend by lia. lia.
    + assert (added_ids (r :: log2) = added_ids log2) as Hsame.
      { destruct r; try done. by destruct (Hr new_id). }
      rewrite Hsame in Hhi |- *. rewrite <- Hnext.
      apply (IH s1 Hok1); [lia|done|lia].
Qed.

Lemma StronglySorted_lt_NoDup (l : list Z) : StronglySorted Z.lt l → NoDup l.
Proof.
  induction 1 as [|x l Hs IH Hall]; constructor; [|done].
  intros Hin. rewrite Forall_forall in Hall. specialize (Hall x Hin). lia.
Qed.

(** ** The countdown *)

Lemma timeline_stage_block (t n secs : Z) (l : list task_t) (rest : list event) :
  timeline t (ESleep n :: (stage_message secs <$> l) ++ rest)
  = stage_at (t + n) secs l ++ timeline (t + n) rest.
Proof.
  cbn [timeline]. rewrite timeline_app.
  destruct (timeline_stage (t + n) secs l) as [-> ->]. by rewrite Z.add_0_r.
Qed.

Lemma sleeps_stage_block (n secs : Z) (l : list task_t) (rest : list event) :
  sleeps (ESleep n :: (stage_message secs <$> l) ++ rest) = n :: sleeps rest.
Proof.
  change (sleeps (ESleep n :: (stage_message secs <$> l) ++ rest))
    with (n :: sleeps ((stage_message secs <$> l) ++ rest)).
  by rewrite sleeps_app, sleeps_stage.
Qed.

Lemma announcements_stage_block (off secs : Z) (l : list task_t) (tl : list (Z * event)) :
  List.filter (λ p : Z * event, is_announcement p.2) (stage_at off secs l ++ tl)
  = stage_at off secs l ++ List.filter (λ p : Z * event, is_announcement p.2) tl.
Proof. by rewrite List.filter_app, filter_stage. Qed.

(** ** What the observers read *)

Lemma deadline_loop_scan (arr : list task_t) (now : Z) (n : nat) :
  ∀ (k : nat) (best : Z),
  (k + n ≤ length arr)%nat →
  deadline_loop n (Z.of_nat k) arr now best
  = Some (scan_deadlines (take n (drop k arr)) now best).
Proof.
  induction n as [|n IH]; intros k best Hk; [done|].
  destruct (slice_lookup arr k n Hk) as [t Ht].
  rewrite (slice_cons _ _ _ _ Ht). cbn [deadline_loop scan_deadlines].
  rewrite rd_nat, Ht. cbn [mbind option_bind].
  destruct (deadline t <=? now); [done|].
  rewrite succ_nat. apply IH. lia.
Qed.

Lemma reads_only_live_ok (s : store) : store_ok s → reads_only_live s.
Proof.
  intros Hok. split; [by apply view_tasks_spec|]. split.
  - intros now. destruct (store_ok_count s Hok) as (m & Hm & Hle & Hlive & _).
    unfold next_deadline. rewrite Hm, Nat2Z.id.
    pose proof (deadline_loop_scan (tasks s) now m 0%nat 0 Hle) as H.
    from_start H. by rewrite <- Hlive in H.
  - intros key.
    destruct (delete_task_spec key s Hok) as
      [[Hrun Hall]|(j & t & arr' & Hrun & Hj & Hid & _ & _ & Hlive)].
    + exists s, false. split; [done|]. split; [done|].
      split; [done|]. intros Hin. exfalso.
      apply list_elem_of_fmap in Hin as (t & -> & Hin).
      rewrite Forall_forall in Hall. by apply (Hall t Hin).
    + eexists _, true. split; [exact Hrun|]. split.
      * assert (Hl' : live (mk_store arr' (task_count s - 1) (next_id s))
                      = delete j (live s)) by exact Hlive.
        rewrite Hl'. apply sublist_delete.
      * split; [|done]. intros _. apply list_elem_of_fmap.
        exists t. split; [done|]. by eapply list_elem_of_lookup_2.
Qed.

(** ** The id counter *)

Lemma live_append (s : store) (t : task_t) (n : Z) :
  store_ok s → task_count s < MAX_TASKS →
  live (mk_store (<[Z.to_nat (task_count s) := t]> (tasks s)) (task_count s + 1) n)
  = live s ++ [t].
Proof.
  intros Hok Hroom.
  destruct (store_ok_count s Hok) as (m & Hm & Hle & Hlive & _).
  destruct Hok as [Hlen _]. unfold MAX_TASKS in *.
  unfold live at 1. cbn [tasks task_count]. rewrite Hm, Nat2Z.id.
  replace (Z.to_nat (Z.of_nat m + 1)) with (S m) by lia.
  rewrite (take_S_r _ m t) by (apply list_lookup_insert_eq; lia).
  rewrite take_insert_ge by lia. by rewrite Hlive.
Qed.

Lemma init_store_ids_below : is_int (next_id init_store) ∧ ids_below init_store.
Proof. split; [vm_compute; split; discriminate|]. constructor. Qed.

Lemma load_loop_ids_below (lines : list line) : ∀ s s',
  store_ok s → is_int (next_id s) → ids_below s → Forall line_id_ok lines →
  load_loop lines s = Some s' → is_int (next_id s') ∧ ids_below s'.
Proof.
  induction lines as [|l rest IH]; intros s s' Hok Hrange Hbelow Hlines Hrun.
  - by injection Hrun as <-.
  - apply Forall_cons in Hlines as [Hl Hrest]. simpl in Hrun.
    destruct (Z.ltb_spec (task_count s) MAX_TASKS) as [Hroom|Hfull];
      [|by injection Hrun as <-].
    destruct l as [lid ltitle lcat lpr ldl|]; [|by eapply IH].
    destruct Hok as [Hlen [Hlo Hhi]].
    rewrite wr_ok in Hrun by (rewrite Hlen; unfold MAX_TASKS in *; lia).
    cbn [mbind option_bind] in Hrun. simpl in Hl. unfold is_int in *.
    eapply IH; [| | |exact Hrest|exact Hrun].
    + split; cbn [tasks task_count]; [by rewrite length_insert|lia].
    + cbn [next_id]. destruct (Z.leb_spec (next_id s) lid); [|done].
      rewrite wrap_int_id; unfold INT_MIN, INT_MAX in *; lia.
    + unfold ids_below in *. cbn [next_id].
      rewrite live_append by done. apply Forall_app. split.
      * eapply Forall_impl; [exact Hbelow|]. cbv beta. intros t Ht.
        destruct (Z.leb_spec (next_id s) lid); [|done].
        rewrite wrap_int_id; unfold INT_MIN, INT_MAX in *; lia.
      * repeat constructor. cbn [id].
        destruct (Z.leb_spec (next_id s) lid); [|lia].
        rewrite wrap_int_id; unfold INT_MIN, INT_MAX in *; lia.
Qed.

Lemma load_tasks_ids_below (lines : list line) (s s' : store) :
  store_ok s → Forall line_id_ok lines →
  load_tasks (Some lines) s = Some s' → is_int (next_id s') ∧ ids_below s'.
Proof.
  intros [Hlen _] Hlines Hrun. simpl in Hrun.
  eapply load_loop_ids_below; [| | |exact Hlines|exact Hrun].
  - split; [done|]. unfold MAX_TASKS. simpl. lia.
  - vm_compute; split; discriminate.
  - constructor.
Qed.

Lemma run_ops_added_count (ops : list op) : ∀ s s' log,
  store_ok s → run_ops ops s = Some (s', log) →
  Z.of_nat (length (added_ids log)) <= count_adds ops.
Proof.
  induction ops as [|o ops IH]; intros s s' log Hok Hrun.
  - by injection Hrun as <- <-.
  - cbn [run_ops] in Hrun.
    destruct (run_op_spec o s Hok) as (s1 & r & Hrun1 & Hok1 & Hcase).
    rewrite Hrun1 in Hrun. cbn [mbind option_bind] in Hrun.
    destruct (run_ops ops s1) as [[s2 log2]|] eqn:Hrest; [|done].
    injection Hrun as <- <-. specialize (IH s1 s2 log2 Hok1 Hrest).
    destruct Hcase as [(t & -> & Ht & _)|(Hr & _)].
    + destruct o; try done. cbn [added_ids count_adds length]. lia.
    + assert (added_ids (r :: log2) = added_ids log2) as ->.
      { destruct r; try done. by destruct (Hr new_id). }
      destruct o; cbn [count_adds]; lia.
Qed.

(** ** The sample stores *)

Lemma demo_store_ok : store_ok demo_store.
Proof. split; [reflexivity|]. vm_compute. split; discriminate. Defined.

Lemma full_store_ok : store_ok full_store.
Proof. split; [reflexivity|]. vm_compute. split; discriminate. Defined.

Lemma demo_store_is_int : is_int (next_id demo_store).
Proof. vm_compute. split; discriminate. Defined.

Lemma demo_store_ids_below : ids_below demo_store.
Proof. vm_compute. repeat constructor. Defined.

Lemma near_full_store_ok : store_ok near_full_store.
Proof. split; [reflexivity|]. vm_compute. split; discriminate. Defined.

Lemma near_full_store_is_int : is_int (next_id near_full_store).
Proof. vm_compute. split; discriminate. Defined.

Lemma near_full_file_ok : Forall line_id_ok near_full_file.
Proof.
  apply Forall_fmap, Forall_forall. intros k Hk%elem_of_seq.
  cbn. unfold INT_MIN, INT_MAX. lia.
Defined.

Lemma near_full_store_ids_below : ids_below near_full_store.
Proof.
  apply (load_tasks_ids_below near_full_file init_store near_full_store
           init_store_ok near_full_file_ok).
  vm_compute. reflexivity.
Defined.

Lemma near_full_store_unique : NoDup (id <$> live near_full_store).
Proof.
  refine (bool_decide_unpack _ _). vm_compute. exact I.
Defined.

(** * The claims *)

(** C1. For every store and every time [now], the extraction step splits
    the live tasks in two: it returns, no task left in the store has a
    deadline at or before [now], the batch holds exactly the tasks that had
    one (in storage order), and every task with a later deadline is kept. *)
Theorem extract_due_partitions (fill : task_t) (now : Z) (s : store) :
  store_ok s →
  ∃ s' b,
    extract_due fill now s = Some (s', b)
    ∧ (∀ t, t ∈ live s' → now < deadline t)
    ∧ (∀ t, t ∈ batch_tasks b ↔ t ∈ live s ∧ deadline t <= now)
    ∧ (∀ t, t ∈ live s → now < deadline t → t ∈ live s')
    ∧ batch_tasks b = filter (due now) (live s)
    ∧ live s' = filter (future now) (live s)
    ∧ batch_tasks b ++ live s' ≡ₚ live s.
Proof.
  intros Hok.
  destruct (extract_due_spec fill now s Hok) as (s' & b & Hrun & Hlive & Hb & _).
  exists s', b. split; [done|]. rewrite Hlive, Hb.
  split; [|split; [|split; [|split; [done|split; [done|]]]]].
  - intros t Ht. by apply list_elem_of_filter in Ht as [Hf _].
  - intros t. rewrite list_elem_of_filter. unfold due. tauto.
  - intros t Hin Hf. by apply list_elem_of_filter.
  - rewrite (list_filter_iff (future now) (λ t, ¬ due now t))
      by (intros t; unfold due, future; lia).
    apply filter_app_complement.
Qed.

Lemma extract_due_partitions_witness :
  store_ok demo_store
  ∧ ∃ s' b,
      extract_due zero_task 100 demo_store = Some (s', b)
      ∧ (∀ t, t ∈ live s' → 100 < deadline t)
      ∧ (∀ t, t ∈ batch_tasks b ↔ t ∈ live demo_store ∧ deadline t <= 100)
      ∧ (∀ t, t ∈ live demo_store → 100 < deadline t → t ∈ live s')
      ∧ batch_tasks b = filter (due 100) (live demo_store)
      ∧ live s' = filter (future 100) (live demo_store)
      ∧ batch_tasks b ++ live s' ≡ₚ live demo_store.
Proof.
  split; [exact demo_store_ok|].
  apply (extract_due_partitions zero_task 100 demo_store). exact demo_store_ok.
Defined.

Example extract_due_demo :
  ∃ s' dc,
    extract_due zero_task 100 demo_store = Some (s', Some dc)
    ∧ id <$> batch_tasks (Some dc) = [1; 3]
    ∧ id <$> live s' = [2; 4]
    ∧ count dc = 2 ∧ task_count s' = 2.
Proof. eexists _, _. vm_compute. repeat split; reflexivity. Qed.

(** C2. A task taken into a batch is not among the live tasks of the store
    the extraction leaves, which is the store in place when the batch is
    handed to the reminder thread.  From then on, whatever the run does
    (menu operations, further scheduler extractions, reminder threads), the
    run goes through and the record is never put back: it is among the live
    tasks of a later store only if an [Add] of that later part of the run
    wrote a record equal to it; without such an [Add], and in any run where
    the id counter, an [int], started above the live ids and is not
    incremented past [INT_MAX], it is in no later store.  What
    [view_tasks], [next_deadline] and [delete_task] show of a store is a
    function of its live tasks. *)
Theorem extracted_never_visible (fill : task_t) (tnow : Z) (s s1 : store)
    (b : option due_copy_t) (x : task_t) :
  store_ok s → extract_due fill tnow s = Some (s1, b) → x ∈ batch_tasks b →
  (x ∉ live s1)
  ∧ reads_only_live s1
  ∧ ∀ ops, ∃ s2 log,
      run_ops ops s1 = Some (s2, log)
      ∧ reads_only_live s2
      ∧ (x ∈ live s2 → x ∈ added_tasks ops log)
      ∧ (count_adds ops = 0 → x ∉ live s2)
      ∧ (ids_below s → is_int (next_id s) →
         next_id s + count_adds ops <= INT_MAX + 1 → x ∉ live s2).
Proof.
  intros Hok Hrun Hx.
  destruct (extract_due_spec fill tnow s Hok) as
    (s1' & b' & Hrun' & Hlive & Hb & Hnext & _).
  destruct (extract_due_ok fill tnow s Hok) as (s1'' & b'' & Hrun'' & Hok1).
  rewrite Hrun in Hrun', Hrun''.
  injection Hrun' as <- <-. injection Hrun'' as <- <-.
  rewrite Hb in Hx. apply list_elem_of_filter in Hx as [Hdue Hin].
  assert (Hgone : x ∉ live s1).
  { rewrite Hlive. intros Hf. apply list_elem_of_filter in Hf as [Hf _].
    unfold due, future in *. lia. }
  split; [done|]. split; [by apply reads_only_live_ok|].
  intros ops.
  destruct (run_ops_total ops s1 Hok1) as (s2 & log & Hops & Hok2 & Hprov & Hids).
  exists s2, log. split; [done|]. split; [by apply reads_only_live_ok|].
  assert (Hback : x ∈ live s2 → x ∈ added_tasks ops log).
  { intros Hx2. by destruct (Hprov x Hx2). }
  split; [done|]. split.
  - intros Hzero Hx2. specialize (Hback Hx2).
    pose proof (run_ops_added_count ops s1 s2 log Hok1 Hops) as Hcount.
    rewrite <- Hids, length_fmap in Hcount.
    destruct (added_tasks ops log); [by apply elem_of_nil in Hback|].
    simpl in Hcount. lia.
  - intros Hbelow Hrange Hroom Hx2. specialize (Hback Hx2).
    unfold ids_below in Hbelow. rewrite <- Hnext in Hrange, Hroom.
    destruct (run_ops_ids ops s1 Hok1 (proj1 Hrange) Hroom s2 log Hops) as [_ Hall].
    rewrite <- Hids in Hall. rewrite Forall_forall in Hall.
    assert (Hidx : id x ∈ id <$> added_tasks ops log)
      by (apply list_elem_of_fmap; eauto).
    specialize (Hall _ Hidx).
    rewrite Forall_forall in Hbelow. specialize (Hbelow x Hin). lia.
Qed.

Lemma extracted_never_visible_witness :
  store_ok demo_store
  ∧ (∃ s1, extract_due zero_task 100 demo_store = Some (s1, demo_batch)
       ∧ mk_task 1 "pay rent" "Personal" 2 100 ∈ batch_tasks demo_batch
       ∧ (mk_task 1 "pay rent" "Personal" 2 100 ∉ live s1)
       ∧ ∃ s2 log, run_ops later_ops s1 = Some (s2, log)
           ∧ mk_task 1 "pay rent" "Personal" 2 100 ∉ live s2).
Proof.
  assert (Hroom : next_id demo_store + count_adds later_ops <= INT_MAX + 1)
    by (vm_compute; discriminate).
  split; [exact demo_store_ok|].
  eexists. split; [vm_compute; reflexivity|].
  assert (Hx : mk_task 1 "pay rent" "Personal" 2 100 ∈ batch_tasks demo_batch)
    by (vm_compute; left).
  split; [exact Hx|].
  destruct (extracted_never_visible zero_task 100 demo_store _ demo_batch
              (mk_task 1 "pay rent" "Personal" 2 100) demo_store_ok eq_refl Hx)
    as (Hgone & _ & Hlater).
  split; [exact Hgone|].
  destruct (Hlater later_ops) as (s2 & log & Hrun & _ & _ & _ & Hnever).
  exists s2, log. split; [exact Hrun|].
  exact (Hnever demo_store_ids_below demo_store_is_int Hroom).
Defined.

Example extracted_stays_in_array :
  ∃ s1, extract_due zero_task 100 demo_store = Some (s1, demo_batch)
        ∧ id <$> live s1 = [2; 4]
        ∧ id <$> take 4 (tasks s1) = [2; 4; 3; 4]
        ∧ view_tasks s1 = Some (live s1).
Proof. eexists. vm_compute. repeat split; reflexivity. Qed.

(** C3. For every non-empty batch the reminder thread runs to its end; it
    sleeps 30, 10, 15, 4 and 1 seconds, 60 in all, and its countdown
    messages are: at offset 30 "30 seconds" for every task of the batch, at
    40 "20 seconds" for every task, at 55 "5 seconds", at 59 "1 second", and
    at 60 the final message for every task, in this order and nothing
    else. *)
Theorem countdown_schedule (dc : due_copy_t) :
  0 < count dc <= Z.of_nat (length (items dc)) →
  ∃ evs,
    reminder_thread_fn (Some dc) = Some evs
    ∧ sleeps evs = [30; 10; 15; 4; 1]
    ∧ elapsed evs = 60
    ∧ announcements evs
      = stage_at 30 30 (batch_tasks (Some dc))
        ++ stage_at 40 20 (batch_tasks (Some dc))
        ++ stage_at 55 5 (batch_tasks (Some dc))
        ++ stage_at 59 1 (batch_tasks (Some dc))
        ++ stage_at 60 0 (batch_tasks (Some dc))
    ∧ (∀ off secs, 0 < secs →
         stage_at off secs (batch_tasks (Some dc))
         = (λ t, (off, ECountdown (title t) secs)) <$> batch_tasks (Some dc))
    ∧ stage_at 60 0 (batch_tasks (Some dc))
      = (λ t, (60, EFinal (title t))) <$> batch_tasks (Some dc)
    ∧ Z.of_nat (length (batch_tasks (Some dc))) = count dc.
Proof.
  intros Hdc. rewrite (reminder_thread_fn_spec dc Hdc).
  set (bt := batch_tasks (Some dc)).
  eexists. split; [reflexivity|].
  assert (Hsleeps :
    sleeps (EHeader (count dc) :: (EDetail <$> bt)
            ++ (ESleep 30 :: (stage_message 30 <$> bt)
                ++ ESleep 10 :: (stage_message 20 <$> bt)
                ++ ESleep 15 :: (stage_message 5 <$> bt)
                ++ ESleep 4 :: (stage_message 1 <$> bt)
                ++ ESleep 1 :: (stage_message 0 <$> bt) ++ [])
            ++ [EFinished]) = [30; 10; 15; 4; 1]).
  { change (sleeps (EHeader (count dc) :: ?l)) with (sleeps l).
    rewrite !sleeps_app, sleeps_details, !sleeps_stage_block. done. }
  split; [exact Hsleeps|]. split; [unfold elapsed; by rewrite Hsleeps|].
  split; [|split; [|split]].
  - unfold announcements. cbn [timeline List.filter snd is_announcement].
    rewrite timeline_app.
    destruct (timeline_details 0 bt) as [-> ->].
    rewrite List.filter_app, filter_details, app_nil_l.
    rewrite timeline_app, List.filter_app.
    rewrite !timeline_stage_block, !announcements_stage_block.
    cbn [timeline List.filter snd is_announcement].
    rewrite !app_nil_r. reflexivity.
  - intros off secs Hsecs. unfold stage_at, stage_message.
    by destruct (Z.ltb_spec 0 secs); [|lia].
  - done.
  - unfold bt, batch_tasks. rewrite length_take. lia.
Qed.

Lemma countdown_schedule_witness :
  0 < count demo_dc <= Z.of_nat (length (items demo_dc))
  ∧ ∃ evs, reminder_thread_fn (Some demo_dc) = Some evs
           ∧ sleeps evs = [30; 10; 15; 4; 1]
           ∧ elapsed evs = 60.
Proof.
  assert (H : 0 < count demo_dc <= Z.of_nat (length (items demo_dc)))
    by (split; [reflexivity|vm_compute; discriminate]).
  split; [exact H|].
  destruct (countdown_schedule demo_dc H) as (evs & Hrun & Hsl & Hel & _).
  exists evs. split; [exact Hrun|]. split; [exact Hsl|exact Hel].
Defined.

Example countdown_demo :
  announcements (default [] (reminder_thread_fn demo_batch))
  = [(30, ECountdown "pay rent" 30); (30, ECountdown "report" 30);
     (40, ECountdown "pay rent" 20); (40, ECountdown "report" 20);
     (55, ECountdown "pay rent" 5); (55, ECountdown "report" 5);
     (59, ECountdown "pay rent" 1); (59, ECountdown "report" 1);
     (60, EFinal "pay rent"); (60, EFinal "report")].
Proof. reflexivity. Qed.

(** C4. [next_deadline] returns 0, the "empty" value, on a store without
    tasks; it returns [now] as soon as one live task has its deadline at or
    before [now], whatever the deadlines of the due tasks are; and when
    every live task is strictly in the future it returns the least
    deadline, so the first of two tasks at [t1 < t2].  [now] is the value
    of [time(NULL)], a number of seconds since the epoch: the last clause
    is for a clock that is not negative, and it holds for any other value
    of [now] as well unless a live task has the deadline 0. *)
Theorem next_deadline_cases (s : store) (now : Z) :
  store_ok s →
  (task_count s = 0 → next_deadline s now = Some 0)
  ∧ (∀ t, t ∈ live s → deadline t <= now → next_deadline s now = Some now)
  ∧ (0 <= now ∨ Forall (λ t, deadline t ≠ 0) (live s) →
     live s ≠ [] → Forall (future now) (live s) →
       ∃ nd, next_deadline s now = Some nd
             ∧ nd ∈ deadline <$> live s
             ∧ Forall (Z.le nd) (deadline <$> live s))
  ∧ (0 <= now ∨ Forall (λ t, deadline t ≠ 0) (live s) →
     ∀ a b, live s = [a; b] →
       now < deadline a → deadline a < deadline b →
       next_deadline s now = Some (deadline a)).
Proof.
  intros Hok. split; [apply next_deadline_empty|]. split; [|split].
  - intros t Hin Hd. by apply (next_deadline_due s now t).
  - intros Hnow Hne Hall. destruct (live s) as [|t l] eqn:Hl; [done|].
    rewrite <- Hl in Hall, Hnow.
    rewrite (next_deadline_least s now t l Hok Hl Hall (future_nonzero _ _ Hnow Hall)).
    eexists. split; [done|]. rewrite fmap_cons. apply min_deadline_least.
  - intros Hnow a b Hl Ha Hab.
    assert (Hall : Forall (future now) (live s)).
    { rewrite Hl. repeat constructor; unfold future; lia. }
    rewrite (next_deadline_least s now a [b] Hok Hl Hall (future_nonzero _ _ Hnow Hall)).
    unfold min_deadline. simpl. f_equal. lia.
Qed.

Lemma next_deadline_cases_witness :
  store_ok demo_store
  ∧ (0 <= 50 ∨ Forall (λ t, deadline t ≠ 0) (live demo_store))
  ∧ live demo_store ≠ []
  ∧ Forall (future 50) (live demo_store)
  ∧ ∃ nd, next_deadline demo_store 50 = Some nd
          ∧ nd ∈ deadline <$> live demo_store
          ∧ Forall (Z.le nd) (deadline <$> live demo_store).
Proof.
  assert (H50 : 0 <= 50 ∨ Forall (λ t, deadline t ≠ 0) (live demo_store))
    by (left; lia).
  assert (Hne : live demo_store ≠ []) by (vm_compute; discriminate).
  assert (Hall : Forall (future 50) (live demo_store))
    by (vm_compute; repeat constructor).
  split; [exact demo_store_ok|]. split; [exact H50|]. split; [exact Hne|].
  split; [exact Hall|].
  exact (proj1 (proj2 (proj2 (next_deadline_cases demo_store 50 demo_store_ok)))
           H50 Hne Hall).
Defined.

(** Where the hypothesis on the clock is needed: [best == 0] stands for
    "no deadline seen yet", so with [now = -1] and live deadlines 0 and 5
    the loop takes 5 for the first deadline it sees. *)
Example next_deadline_before_epoch :
  store_ok epoch_store
  ∧ deadline <$> live epoch_store = [0; 5]
  ∧ Forall (future (-1)) (live epoch_store)
  ∧ next_deadline epoch_store (-1) = Some 5
  ∧ next_deadline epoch_store (-1) ≠ Some (min_deadline 0 [5]).
Proof.
  split; [split; [reflexivity|vm_compute; split; discriminate]|].
  split; [reflexivity|].
  split; [vm_compute; repeat constructor|].
  split; [reflexivity|]. vm_compute. discriminate.
Qed.

(** C5, as the code has it.  In a run in which the id counter, an [int],
    is not incremented past [INT_MAX], whatever adds, deletes, extractions
    and queries the run is made of: the run goes through, the ids handed out
    by its successive [Add]s are strictly increasing, hence pairwise
    distinct, no delete or extraction in between brings an id back, and
    when the live ids were below the counter at the start (as at program
    start, and after loading a file whose ids are below [INT_MAX]) none of
    the new ids is the id of a task that was live then.  The counter moves
    once for every [Add] that is accepted, so the run is one whose accepted
    [Add]s, as many as ids in its log, fit between the counter and
    [INT_MAX]; an [Add] refused at capacity does not count. *)
Theorem add_ids_increasing (s : store) (ops : list op) :
  store_ok s → is_int (next_id s) →
  ∃ s' log,
    run_ops ops s = Some (s', log)
    ∧ (next_id s + Z.of_nat (length (added_ids log)) <= INT_MAX + 1 →
       StronglySorted Z.lt (added_ids log)
       ∧ NoDup (added_ids log)
       ∧ Forall (λ i, next_id s <= i) (added_ids log)
       ∧ (ids_below s → Forall (λ i, i ∉ id <$> live s) (added_ids log))).
Proof.
  intros Hok Hrange.
  destruct (run_ops_total ops s Hok) as (s' & log & Hrun & _).
  exists s', log. split; [done|]. intros Hroom.
  destruct (run_ops_accepted ops s Hok (proj1 Hrange) s' log Hrun Hroom)
    as (Hsort & Hall & _).
  split; [done|].
  split; [by apply StronglySorted_lt_NoDup|]. split.
  - eapply Forall_impl; [exact Hall|]. cbv beta. intros i Hi. lia.
  - intros Hbelow. eapply Forall_impl; [exact Hall|]. cbv beta. intros i [Hi _].
    intros Hin. apply list_elem_of_fmap in Hin as (t & -> & Hin).
    unfold ids_below in Hbelow.
    rewrite Forall_forall in Hbelow. specialize (Hbelow t Hin). lia.
Qed.

Lemma add_ids_increasing_witness :
  store_ok near_full_store ∧ is_int (next_id near_full_store)
  ∧ ∃ s' log,
      run_ops four_adds near_full_store = Some (s', log)
      ∧ next_id near_full_store + Z.of_nat (length (added_ids log)) <= INT_MAX + 1
      ∧ log = [OAdded 2147483645; OAdded 2147483646; ORejected; ORejected]
      ∧ next_id s' = INT_MAX
      ∧ StronglySorted Z.lt (added_ids log).
Proof.
  split; [exact near_full_store_ok|]. split; [exact near_full_store_is_int|].
  destruct (add_ids_increasing near_full_store four_adds
              near_full_store_ok near_full_store_is_int)
    as (s' & log & Hrun & Hinc).
  exists s', log. split; [exact Hrun|].
  assert (Hlog : log = [OAdded 2147483645; OAdded 2147483646; ORejected; ORejected]
                 ∧ next_id s' = INT_MAX).
  { assert (Hval : option_map (λ p, (p.2, next_id p.1)) (run_ops four_adds near_full_store)
                   = Some ([OAdded 2147483645; OAdded 2147483646; ORejected; ORejected],
                           INT_MAX)) by (vm_compute; reflexivity).
    rewrite Hrun in Hval. injection Hval as Hl Hn. split; [exact Hl|exact Hn]. }
  destruct Hlog as [Hlog Hnext].
  assert (Hroom : next_id near_full_store + Z.of_nat (length (added_ids log))
                  <= INT_MAX + 1).
  { rewrite Hlog. vm_compute. discriminate. }
  split; [exact Hroom|]. split; [exact Hlog|]. split; [exact Hnext|].
  exact (proj1 (Hinc Hroom)).
Defined.

Example add_ids_demo :
  ∃ s' log, run_ops later_ops demo_store = Some (s', log)
            ∧ added_ids log = [5; 6; 7]
            ∧ id <$> live s' = [4; 6; 7].
Proof. eexists _, _. vm_compute. repeat split; reflexivity. Qed.

(** C5, as the claim has it, fails at the end of the [int] range: after
    loading a file whose record has the id [INT_MAX - 1], the counter is
    [INT_MAX]; the first [Add] returns [INT_MAX], the increment wraps, and
    the second [Add] returns [INT_MIN], which is smaller. *)
Lemma add_ids_wrap :
  store_ok big_id_store
  ∧ next_id big_id_store = INT_MAX
  ∧ ∃ s' log,
      run_ops [OpAdd "a" "Work" 1 1000; OpAdd "b" "Work" 1 1000] big_id_store
      = Some (s', log)
      ∧ added_ids log = [2147483647; -2147483648]
      ∧ ¬ StronglySorted Z.lt (added_ids log).
Proof.
  split; [split; [reflexivity|vm_compute; split; discriminate]|].
  split; [reflexivity|].
  eexists _, _. split; [vm_compute; reflexivity|].
  split; [reflexivity|].
  intros Hsort. apply StronglySorted_inv in Hsort as [_ Hall].
  apply Forall_cons in Hall as [Hlt _]. vm_compute in Hlt. discriminate.
Qed.

(** C6. Extraction is idempotent at one instant: for every store and time
    [now], a second extraction at the same [now] right after the first,
    with no [Add] in between, finds nothing due; its batch is empty and it
    leaves the store as the first extraction left it. *)
Theorem extract_due_twice (fill fill' : task_t) (now : Z) (s : store) :
  store_ok s →
  ∃ s1 b1 s2 b2,
    extract_due fill now s = Some (s1, b1)
    ∧ extract_due fill' now s1 = Some (s2, b2)
    ∧ batch_tasks b2 = [] ∧ b2 = None ∧ s2 = s1.
Proof.
  intros Hok.
  destruct (extract_due_spec fill now s Hok) as (s1 & b1 & Hrun1 & Hlive1 & _).
  destruct (extract_due_ok fill now s Hok) as (s1' & b1' & Hrun1' & Hok1).
  rewrite Hrun1 in Hrun1'. injection Hrun1' as <- <-.
  destruct (extract_due_spec fill' now s1 Hok1) as
    (s2 & b2 & Hrun2 & _ & Hb2 & _ & _ & _ & Hnone & _).
  rewrite Hlive1, filter_future_due in Hb2.
  destruct Hnone as [-> ->]; [by rewrite Hlive1, filter_future_due|].
  by exists s1, b1, s1, None.
Qed.

Lemma extract_due_twice_witness :
  store_ok demo_store
  ∧ ∃ s1 b1 s2 b2,
      extract_due zero_task 100 demo_store = Some (s1, b1)
      ∧ extract_due zero_task 100 s1 = Some (s2, b2)
      ∧ batch_tasks b2 = [] ∧ b2 = None ∧ s2 = s1.
Proof.
  split; [exact demo_store_ok|].
  apply (extract_due_twice zero_task zero_task 100 demo_store). exact demo_store_ok.
Defined.



Example add_task_below_capacity :
  ∃ s', add_task "exam" "Study" 5 500 init_store = Some (s', Added 1)
        ∧ live s' = [mk_task 1 "exam" "Study" 5 500]
        ∧ task_count s' = 1 ∧ next_id s' = 2.
Proof. eexists. repeat split. Qed.

(** C8. The number of live tasks stays between 0 and [MAX_TASKS] = 256:
    in a store within these bounds, [load_tasks], [add_task], [delete_task]
    and the extraction all run to their end without an array access outside
    [tasks] (the model returns [Some]) and leave a store within the same
    bounds. *)
Theorem task_count_in_bounds (s : store) :
  store_ok s →
  0 <= task_count s <= MAX_TASKS
  ∧ task_count s <= Z.of_nat (length (tasks s))
  ∧ (∀ file, ∃ s', load_tasks file s = Some s' ∧ store_ok s'
                   ∧ 0 <= task_count s' <= MAX_TASKS)
  ∧ (∀ ttl cat pr dl, ∃ s' r, add_task ttl cat pr dl s = Some (s', r)
                   ∧ store_ok s' ∧ 0 <= task_count s' <= MAX_TASKS)
  ∧ (∀ key, ∃ s' found, delete_task key s = Some (s', found)
                   ∧ store_ok s' ∧ 0 <= task_count s' <= MAX_TASKS)
  ∧ (∀ fill now, ∃ s' b, extract_due fill now s = Some (s', b)
                   ∧ store_ok s' ∧ 0 <= task_count s' <= MAX_TASKS).
Proof.
  intros Hok. split; [apply Hok|]. split.
  { destruct Hok as [-> [_ H]]. lia. }
  split; [|split; [|split]].
  - intros file. destruct (load_tasks_ok file s Hok) as (s' & Hrun & Hok').
    exists s'. split; [done|]. split; [done|apply Hok'].
  - intros ttl cat pr dl.
    destruct (add_task_ok ttl cat pr dl s Hok) as (s' & r & Hrun & Hok').
    exists s', r. split; [done|]. split; [done|apply Hok'].
  - intros key. destruct (delete_task_ok key s Hok) as (s' & found & Hrun & Hok').
    exists s', found. split; [done|]. split; [done|apply Hok'].
  - intros fill now.
    destruct (extract_due_ok fill now s Hok) as (s' & b & Hrun & Hok').
    exists s', b. split; [done|]. split; [done|apply Hok'].
Qed.

Lemma task_count_in_bounds_witness :
  store_ok full_store
  ∧ ∃ s' r, add_task "one more" "Work" 1 2000 full_store = Some (s', r)
            ∧ store_ok s' ∧ 0 <= task_count s' <= MAX_TASKS.
Proof.
  split; [exact full_store_ok|].
  apply (task_count_in_bounds full_store full_store_ok).
Defined.

(** C9. [delete_task] and the extraction keep the storage order of the
    tasks that stay: after a delete the live tasks are the old ones with the
    first task of the given id taken out, after an extraction they are the
    old ones with the due tasks taken out, in both cases in the order they
    had. *)
Theorem survivors_keep_order (s : store) :
  store_ok s →
  (∀ key, ∃ s' found,
      delete_task key s = Some (s', found)
      ∧ live s' `sublist_of` live s
      ∧ (found = false → live s' = live s ∧ Forall (λ t, id t ≠ key) (live s))
      ∧ (found = true →
           ∃ l1 t l2, live s = l1 ++ t :: l2 ∧ id t = key
                      ∧ Forall (λ u, id u ≠ key) l1 ∧ live s' = l1 ++ l2))
  ∧ (∀ fill now, ∃ s' b,
      extract_due fill now s = Some (s', b)
      ∧ live s' `sublist_of` live s
      ∧ live s' = filter (future now) (live s)).
Proof.
  intros Hok. split.
  - intros key.
    destruct (delete_task_spec key s Hok) as
      [[Hrun Hall]|(j & t & arr' & Hrun & Hj & Hid & Hall & _ & Hlive)].
    + exists s, false. repeat split; try done.
    + eexists _, true. split; [exact Hrun|].
      assert (Hl' : live (mk_store arr' (task_count s - 1) (next_id s))
                    = delete j (live s)) by exact Hlive.
      rewrite Hl'.
      split; [apply sublist_delete|]. split; [done|]. intros _.
      exists (take j (live s)), t, (drop (S j) (live s)).
      rewrite take_drop_middle by done. rewrite delete_take_drop. done.
  - intros fill now.
    destruct (extract_due_spec fill now s Hok) as (s' & b & Hrun & Hlive & _).
    exists s', b. split; [done|]. rewrite Hlive. split; [apply sublist_filter|done].
Qed.

Lemma survivors_keep_order_witness :
  store_ok demo_store
  ∧ ∃ s' b,
      extract_due zero_task 100 demo_store = Some (s', b)
      ∧ live s' `sublist_of` live demo_store
      ∧ live s' = filter (future 100) (live demo_store).
Proof.
  split; [exact demo_store_ok|].
  apply (survivors_keep_order demo_store demo_store_ok).
Defined.

Example delete_task_demo :
  ∃ s', delete_task 2 demo_store = Some (s', true)
        ∧ id <$> live demo_store = [1; 2; 3; 4]
        ∧ id <$> live s' = [1; 3; 4].
Proof. eexists. vm_compute. repeat split; reflexivity. Qed.

(** C10. For a clock value [now > 0], [next_deadline] returns 0, the value
    the scheduler tests before its two second poll, exactly when the store
    is empty: with a task whose deadline is at or before [now] (0 included)
    the result is [now], which is not 0, and with future tasks only it is
    one of their deadlines, all above [now]. *)
Theorem next_deadline_zero_iff_empty (s : store) (now : Z) :
  store_ok s → 0 < now →
  ∃ nd,
    next_deadline s now = Some nd
    ∧ (nd = 0 ↔ task_count s = 0)
    ∧ (scheduler_polls nd = true ↔ live s = [])
    ∧ (∀ t, t ∈ live s → deadline t <= now → nd = now ∧ nd ≠ 0).
Proof.
  intros Hok Hnow.
  destruct (store_ok_count s Hok) as (m & Hm & Hle & Hlive & Hlen).
  assert (Hres : ∃ nd, next_deadline s now = Some nd
                       ∧ (live s = [] → nd = 0)
                       ∧ (live s ≠ [] → now <= nd)
                       ∧ (∀ t, t ∈ live s → deadline t <= now → nd = now)).
  { destruct (live s) as [|t l] eqn:Hl.
    - exists 0. split; [apply next_deadline_empty; simpl in Hlen; lia|].
      split; [done|]. split; [done|]. intros t Hin. by apply elem_of_nil in Hin.
    - destruct (decide (Forall (future now) (live s))) as [Hall|Hsome].
      + rewrite (next_deadline_future s now t l) by (done || lia).
        eexists. split; [done|]. split; [done|].
        rewrite Hl in Hall. apply Forall_cons in Hall as [Ht Hall].
        split.
        * intros _. apply Z.lt_le_incl, min_deadline_lower; [done|].
          apply Forall_fmap. exact Hall.
        * intros u Hin Hd. exfalso.
          apply elem_of_cons in Hin as [->|Hin]; [unfold future in Ht; lia|].
          rewrite Forall_forall in Hall. specialize (Hall u Hin).
          unfold future in Hall. lia.
      + apply not_Forall_Exists in Hsome; [|apply _].
        apply Exists_exists in Hsome as (u & Hin & Hnf).
        simpl in Hnf. unfold future in Hnf.
        rewrite (next_deadline_due s now u) by (done || unfold due; lia).
        exists now. split; [done|]. split; [done|]. split; [lia|done]. }
  destruct Hres as (nd & Hrun & Hnil & Hcons & Hdue).
  assert (Hiff : live s = [] ↔ task_count s = 0).
  { split; intros H.
    - rewrite H in Hlen. simpl in Hlen. lia.
    - apply length_zero_iff_nil. lia. }
  exists nd. split; [done|]. split; [|split].
  - rewrite <- Hiff. split; [|done]. intros ->.
    destruct (live s) as [|t l]; [done|]. exfalso.
    assert (now <= 0) by (by apply Hcons). lia.
  - unfold scheduler_polls. rewrite Z.eqb_eq. split; [|done]. intros ->.
    destruct (live s) as [|t l]; [done|]. exfalso.
    assert (now <= 0) by (by apply Hcons). lia.
  - intros t Hin Hd. specialize (Hdue t Hin Hd). lia.
Qed.

Lemma next_deadline_zero_iff_empty_witness :
  store_ok demo_store ∧ 0 < 300
  ∧ ∃ nd,
      next_deadline demo_store 300 = Some nd
      ∧ (nd = 0 ↔ task_count demo_store = 0)
      ∧ (scheduler_polls nd = true ↔ live demo_store = [])
      ∧ (∀ t, t ∈ live demo_store → deadline t <= 300 → nd = 300 ∧ nd ≠ 0).
Proof.
  split; [exact demo_store_ok|]. split; [lia|].
  apply (next_deadline_zero_iff_empty demo_store 300 demo_store_ok). lia.
Defined.

Example next_deadline_demo :
  next_deadline init_store 300 = Some 0
  ∧ next_deadline demo_store 300 = Some 300
  ∧ next_deadline demo_store 50 = Some 100.
Proof. repeat split; reflexivity. Qed.

(** * Further properties *)

(** ** Strings *)

Lemma str_app_cons (c : ascii) (a b : string) :
  String c a +:+ b = String c (a +:+ b).
Proof. reflexivity. Qed.

Lemma str_app_nil_l (b : string) : "" +:+ b = b.
Proof. reflexivity. Qed.

Lemma str_app_nil_r (a : string) : a +:+ "" = a.
Proof. induction a as [|c a IH]; [done|]. by rewrite str_app_cons, IH. Qed.

Lemma str_app_assoc (a b c : string) : (a +:+ b) +:+ c = a +:+ (b +:+ c).
Proof. induction a as [|x a IH]; [done|]. by rewrite !str_app_cons, IH. Qed.

Lemma str_length_app (a b : string) :
  String.length (a +:+ b) = (String.length a + String.length b)%nat.
Proof.
  induction a as [|x a IH]; [done|].
  rewrite str_app_cons. cbn [String.length]. by rewrite IH.
Qed.

Lemma chars_cons (c : ascii) (s : string) :
  String.list_ascii_of_string (String c s) = c :: String.list_ascii_of_string s.
Proof. reflexivity. Qed.

Lemma chars_app (a b : string) :
  String.list_ascii_of_string (a +:+ b)
  = String.list_ascii_of_string a ++ String.list_ascii_of_string b.
Proof.
  induction a as [|x a IH]; [done|].
  by rewrite str_app_cons, !chars_cons, IH.
Qed.

Lemma c_string_id (s : string) :
  Forall (λ c, c ≠ nul) (String.list_ascii_of_string s) → c_string s = s.
Proof.
  induction s as [|c s IH]; [done|]. rewrite chars_cons. intros [Hc Hs]%Forall_cons.
  cbn [c_string]. destruct (Ascii.eqb_spec c nul); [done|]. by rewrite IH.
Qed.

Lemma c_string_no_nul (s : string) :
  Forall (λ c, c ≠ nul) (String.list_ascii_of_string (c_string s)).
Proof.
  induction s as [|c s IH]; [constructor|]. cbn [c_string].
  destruct (Ascii.eqb_spec c nul); [constructor|].
  rewrite chars_cons. by constructor.
Qed.

Lemma chop_newline_line (b rest : string) :
  Forall (λ c, c ≠ newline) (String.list_ascii_of_string b) →
  chop_newline (b +:+ String newline rest) = b.
Proof.
  induction b as [|c b IH].
  - intros _. rewrite str_app_nil_l. cbn [chop_newline].
    by rewrite Ascii.eqb_refl.
  - rewrite chars_cons. intros [Hc Hb]%Forall_cons.
    rewrite str_app_cons. cbn [chop_newline].
    destruct (Ascii.eqb_spec c newline); [done|]. by rewrite IH.
Qed.

Lemma fgets_line (n : nat) (b rest : string) :
  Forall (λ c, c ≠ newline) (String.list_ascii_of_string b) →
  (String.length b < n)%nat →
  fgets n (b +:+ String newline rest) = (b +:+ String newline "", rest).
Proof.
  revert n. induction b as [|c b IH]; intros n Hb Hn.
  - destruct n as [|n]; [cbn in Hn; lia|].
    rewrite !str_app_nil_l. cbn [fgets]. by rewrite Ascii.eqb_refl.
  - rewrite chars_cons in Hb. apply Forall_cons in Hb as [Hc Hb].
    destruct n as [|n]; [cbn in Hn; lia|].
    rewrite !str_app_cons. cbn [fgets].
    destruct (Ascii.eqb_spec c newline); [done|].
    rewrite IH; [done|done|]. cbn [String.length] in Hn. lia.
Qed.

Lemma strncpy_short (n : nat) (s : string) :
  (String.length s <= n)%nat → strncpy n s = s.
Proof.
  unfold strncpy. revert n. induction s as [|c s IH]; intros n Hn.
  - by destruct n.
  - destruct n as [|n]; [cbn in Hn; lia|].
    cbn [String.substring]. rewrite IH; [done|]. cbn [String.length] in Hn. lia.
Qed.

Lemma strncpy_length (n : nat) (s : string) :
  (String.length (strncpy n s) <= n)%nat.
Proof.
  unfold strncpy. revert n. induction s as [|c s IH]; intros n.
  - destruct n; cbn; lia.
  - destruct n as [|n]; [cbn; lia|].
    cbn [String.substring String.length]. specialize (IH n). lia.
Qed.

(** ** Numbers in decimal *)

Lemma digit_char_spec (d : Z) :
  0 <= d < 10 →
  is_digit (digit_char d) = true
  ∧ Z.of_nat (nat_of_ascii (digit_char d)) - 48 = d
  ∧ is_space (digit_char d) = false
  ∧ Ascii.eqb (digit_char d) "-" = false
  ∧ Ascii.eqb (digit_char d) "+" = false
  ∧ plain (digit_char d).
Proof.
  intros Hd.
  assert (d = 0 ∨ d = 1 ∨ d = 2 ∨ d = 3 ∨ d = 4 ∨ d = 5 ∨ d = 6 ∨ d = 7
          ∨ d = 8 ∨ d = 9) as H by lia.
  unfold plain.
  repeat (destruct H as [-> | H]); try subst d; by vm_compute.
Qed.

Lemma print_digits_app (fuel : nat) : ∀ (n : Z) (acc tail : string),
  print_digits fuel n acc +:+ tail = print_digits fuel n (acc +:+ tail).
Proof.
  induction fuel as [|fuel IH]; intros n acc tail; [done|].
  cbn [print_digits]. destruct (n <? 10); [done|]. by rewrite IH.
Qed.

Lemma enough_step (fuel : nat) (n : Z) :
  enough (S fuel) n → 10 <= n → enough fuel (n / 10).
Proof.
  intros [[Hlo Hhi] _] Hn.
  assert (Hdiv : 1 <= n / 10 <= n / 2).
  { split; [apply Z.div_le_lower_bound; lia|].
    apply Z.div_le_compat_l; lia. }
  assert (Hhalf : n / 2 < 2 ^ Z.of_nat fuel).
  { apply Z.div_lt_upper_bound; [lia|].
    rewrite Nat2Z.inj_succ, Z.pow_succ_r in Hhi by lia. lia. }
  split; [lia|]. destruct fuel; [|lia]. simpl in Hhalf. lia.
Qed.

Lemma enough_log2 (z : Z) : 0 <= z → enough (S (Z.to_nat (Z.log2 z))) z.
Proof.
  intros Hz. split; [|lia]. split; [done|].
  rewrite Nat2Z.inj_succ, Z2Nat.id by apply Z.log2_nonneg.
  destruct (Z.eq_dec z 0) as [->|Hnz]; [done|].
  apply Z.log2_spec. lia.
Qed.

Lemma print_digits_scan (fuel : nat) : ∀ (n : Z) (acc : string),
  enough fuel n →
  ∃ k, ∀ a, scan_digits (print_digits fuel n acc) a = scan_digits acc (a * k + n).
Proof.
  induction fuel as [|fuel IH]; intros n acc Hen; [destruct Hen; lia|].
  cbn [print_digits]. destruct (Z.ltb_spec n 10) as [Hlt|Hge].
  - exists 10. intros a. cbn [scan_digits].
    destruct (digit_char_spec n) as (-> & -> & _); [destruct Hen; lia|done].
  - destruct (IH (n / 10) (String (digit_char (n mod 10)) acc)) as [k Hk];
      [by apply enough_step|].
    exists (10 * k). intros a. rewrite Hk. cbn [scan_digits].
    destruct (digit_char_spec (n mod 10)) as (-> & -> & _);
      [apply Z.mod_pos_bound; lia|].
    f_equal. pose proof (Z.div_mod n 10). lia.
Qed.

Lemma print_digits_head (fuel : nat) : ∀ (n : Z) (acc : string),
  enough fuel n →
  ∃ d r, 0 <= d < 10 ∧ print_digits fuel n acc = String (digit_char d) r.
Proof.
  induction fuel as [|fuel IH]; intros n acc Hen; [destruct Hen; lia|].
  cbn [print_digits]. destruct (Z.ltb_spec n 10) as [Hlt|Hge].
  - exists n, acc. split; [destruct Hen; lia|done].
  - apply IH. by apply enough_step.
Qed.

Lemma print_digits_plain (fuel : nat) : ∀ (n : Z) (acc : string),
  enough fuel n →
  Forall plain (String.list_ascii_of_string acc) →
  Forall plain (String.list_ascii_of_string (print_digits fuel n acc)).
Proof.
  induction fuel as [|fuel IH]; intros n acc Hen Hacc; [done|].
  cbn [print_digits]. destruct (Z.ltb_spec n 10) as [Hlt|Hge].
  - rewrite chars_cons. constructor; [|done].
    apply digit_char_spec. destruct Hen; lia.
  - apply IH; [by apply enough_step|].
    rewrite chars_cons. constructor; [|done].
    apply digit_char_spec, Z.mod_pos_bound. lia.
Qed.

Lemma print_digits_length (fuel : nat) : ∀ (n : Z) (acc : string),
  (String.length (print_digits fuel n acc) <= fuel + String.length acc)%nat.
Proof.
  induction fuel as [|fuel IH]; intros n acc; [cbn; lia|].
  cbn [print_digits]. destruct (n <? 10); [cbn [String.length]; lia|].
  specialize (IH (n / 10) (String (digit_char (n mod 10)) acc)).
  cbn [String.length] in IH. lia.
Qed.

Lemma print_int_plain (z : Z) :
  Forall plain (String.list_ascii_of_string (print_int z)).
Proof.
  unfold print_int. destruct (Z.ltb_spec z 0).
  - rewrite chars_cons. constructor; [by vm_compute|].
    apply print_digits_plain; [apply enough_log2; lia|constructor].
  - apply print_digits_plain; [by apply enough_log2|constructor].
Qed.

Lemma print_int_length (z : Z) :
  - 2 ^ 63 <= z < 2 ^ 63 → (String.length (print_int z) <= 65)%nat.
Proof.
  intros Hz. unfold print_int.
  assert (Hlog : ∀ n, 0 <= n <= 2 ^ 63 → (Z.to_nat (Z.log2 n) <= 63)%nat).
  { intros n Hn. pose proof (Z.log2_le_mono n (2 ^ 63) ltac:(lia)) as Hm.
    rewrite Z.log2_pow2 in Hm by lia. lia. }
  destruct (Z.ltb_spec z 0).
  - cbn [String.length].
    pose proof (print_digits_length (S (Z.to_nat (Z.log2 (- z)))) (- z) "") as Hl.
    specialize (Hlog (- z) ltac:(lia)). cbn [String.length] in Hl. lia.
  - pose proof (print_digits_length (S (Z.to_nat (Z.log2 z))) z "") as Hl.
    specialize (Hlog z ltac:(lia)). cbn [String.length] in Hl. lia.
Qed.

Lemma scan_digits_stops (tail : string) (a : Z) :
  stops tail → scan_digits tail a = (a, tail).
Proof. destruct tail as [|c r]; [done|]. simpl. by intros ->. Qed.

Lemma scan_number_print (z : Z) (tail : string) :
  stops tail → scan_number (print_int z +:+ tail) = Some (z, tail).
Proof.
  intros Htail. unfold print_int, scan_number.
  destruct (Z.ltb_spec z 0) as [Hneg|Hpos].
  - rewrite str_app_cons, print_digits_app, str_app_nil_l.
    cbn [skip_space]. change (is_space "-") with false. cbv iota.
    change (Ascii.eqb "-" "-") with true. cbv iota.
    destruct (print_digits_head (S (Z.to_nat (Z.log2 (- z)))) (- z) tail)
      as (d & r & Hd & Heq); [apply enough_log2; lia|].
    destruct (print_digits_scan (S (Z.to_nat (Z.log2 (- z)))) (- z) tail)
      as [k Hk]; [apply enough_log2; lia|].
    rewrite Heq at 1. destruct (digit_char_spec d Hd) as (-> & _).
    rewrite (Hk 0), scan_digits_stops by done. f_equal. f_equal. lia.
  - rewrite print_digits_app, str_app_nil_l.
    destruct (print_digits_head (S (Z.to_nat (Z.log2 z))) z tail)
      as (d & r & Hd & Heq); [by apply enough_log2|].
    destruct (print_digits_scan (S (Z.to_nat (Z.log2 z))) z tail)
      as [k Hk]; [by apply enough_log2|].
    destruct (digit_char_spec d Hd) as (Hdig & _ & Hsp & Hminus & Hplus & _).
    rewrite Heq. cbn [skip_space]. rewrite Hsp, Hminus, Hplus, Hdig.
    rewrite <- Heq, (Hk 0), scan_digits_stops by done. f_equal; f_equal; lia.
Qed.

Lemma clamp_llong_id (z : Z) : LLONG_MIN <= z <= LLONG_MAX → clamp_llong z = z.
Proof. unfold clamp_llong. lia. Qed.

Lemma clamp_llong_range (z : Z) : LLONG_MIN <= clamp_llong z <= LLONG_MAX.
Proof. unfold clamp_llong, LLONG_MIN, LLONG_MAX. lia. Qed.

Lemma wrap_int_range (z : Z) : is_int (wrap_int z).
Proof.
  unfold is_int, wrap_int, INT_MIN, INT_MAX.
  pose proof (Z.mod_pos_bound (z + 2 ^ 31) (2 ^ 32) ltac:(lia)). lia.
Qed.

Lemma scan_int_print (z : Z) (tail : string) :
  is_int z → stops tail → scan_int (print_int z +:+ tail) = Some (z, tail).
Proof.
  intros Hz Htail. unfold scan_int. rewrite scan_number_print by done.
  cbn [mbind option_bind]. unfold is_int, INT_MIN, INT_MAX in Hz.
  rewrite clamp_llong_id by (unfold LLONG_MIN, LLONG_MAX; lia).
  rewrite wrap_int_id by (unfold INT_MIN, INT_MAX; lia). done.
Qed.

Lemma scan_int_print_rest (z : Z) (tail : string) :
  stops tail → ∃ v, scan_int (print_int z +:+ tail) = Some (v, tail).
Proof.
  intros Htail. unfold scan_int. rewrite scan_number_print by done.
  cbn [mbind option_bind]. eauto.
Qed.

Lemma scan_llong_print (z : Z) (tail : string) :
  - 2 ^ 63 <= z < 2 ^ 63 → stops tail →
  scan_llong (print_int z +:+ tail) = Some (z, tail).
Proof.
  intros Hz Htail. unfold scan_llong. rewrite scan_number_print by done.
  cbn [mbind option_bind].
  rewrite clamp_llong_id by (unfold LLONG_MIN, LLONG_MAX; lia). done.
Qed.

Lemma scan_int_range (s : string) (v : Z) (rest : string) :
  scan_int s = Some (v, rest) → is_int v.
Proof.
  unfold scan_int. destruct (scan_number s) as [[n r]|]; [|done].
  intros [= <- _]. apply wrap_int_range.
Qed.

Lemma scan_llong_range (s : string) (v : Z) (rest : string) :
  scan_llong s = Some (v, rest) → LLONG_MIN <= v <= LLONG_MAX.
Proof.
  unfold scan_llong. destruct (scan_number s) as [[n r]|]; [|done].
  intros [= <- _]. apply clamp_llong_range.
Qed.

(** ** One line of the task file *)

Lemma format_line_body (t : task_t) :
  format_line t
  = line_body (id t) (c_string (title t)) (c_string (category t))
      (priority t) (deadline t) +:+ String newline "".
Proof.
  unfold format_line, line_body.
  repeat (rewrite str_app_assoc || rewrite str_app_cons). done.
Qed.

Lemma scan_set_field (n : nat) (f rest : string) :
  Forall (λ c, c ≠ bar) (String.list_ascii_of_string f) →
  (String.length f <= n)%nat →
  scan_set n (f +:+ String bar rest) = (f, String bar rest).
Proof.
  revert n. induction f as [|c f IH]; intros n Hf Hn.
  - rewrite str_app_nil_l. destruct n; cbn [scan_set]; [done|].
    by rewrite Ascii.eqb_refl.
  - rewrite chars_cons in Hf. apply Forall_cons in Hf as [Hc Hf].
    destruct n as [|n]; [cbn in Hn; lia|]. cbn [String.length] in Hn.
    rewrite str_app_cons. cbn [scan_set].
    destruct (Ascii.eqb_spec c bar); [done|]. rewrite IH by (done || lia). done.
Qed.

Lemma scan_set_spec (n : nat) : ∀ (s f r : string),
  scan_set n s = (f, r) →
  s = f +:+ r ∧ (String.length f <= n)%nat
  ∧ Forall (λ c, c ≠ bar) (String.list_ascii_of_string f).
Proof.
  induction n as [|n IH]; intros s f r Hscan.
  - destruct s; injection Hscan as <- <-; repeat split; cbn; try lia; constructor.
  - destruct s as [|c s]; [injection Hscan as <- <-; repeat split; cbn; try lia; constructor|].
    cbn [scan_set] in Hscan. destruct (Ascii.eqb_spec c bar) as [->|Hc].
    + injection Hscan as <- <-. repeat split; cbn; try lia; constructor.
    + destruct (scan_set n s) as [f' r'] eqn:Hrec. injection Hscan as <- <-.
      destruct (IH s f' r' Hrec) as (-> & Hlen & Hall).
      rewrite chars_cons. repeat split; [cbn [String.length]; lia|by constructor].
Qed.

Lemma scan_field_ok (n : nat) (f rest : string) :
  f ≠ "" → Forall (λ c, c ≠ bar) (String.list_ascii_of_string f) →
  (String.length f <= n)%nat →
  scan_field n (f +:+ String bar rest) = Some (f, String bar rest).
Proof.
  intros Hne Hf Hn. unfold scan_field. rewrite scan_set_field by done.
  by destruct f.
Qed.

Lemma scan_field_spec (n : nat) (s f r : string) :
  scan_field n s = Some (f, r) →
  f ≠ "" ∧ (String.length f <= n)%nat
  ∧ Forall (λ c, c ≠ bar) (String.list_ascii_of_string f).
Proof.
  unfold scan_field. destruct (scan_set n s) as [f' r'] eqn:Hscan.
  destruct (scan_set_spec n s f' r' Hscan) as (_ & Hlen & Hall).
  destruct f' as [|c f']; [done|]. by intros [= <- <-].
Qed.

Lemma scan_field_bar (n : nat) (rest : string) :
  scan_field n (String bar rest) = None.
Proof.
  unfold scan_field. destruct n; cbn [scan_set]; [done|].
  by rewrite Ascii.eqb_refl.
Qed.

Lemma stops_bar (rest : string) : stops (String bar rest).
Proof. reflexivity. Qed.

Lemma plain_no_bar (cs : list ascii) : Forall plain cs → Forall (λ c, c ≠ bar) cs.
Proof. intros H. eapply Forall_impl; [exact H|]. by intros c [Hc _]. Qed.

Lemma sscanf_line_body (i : Z) (ttl cat : string) (pr dl : Z) :
  is_int i → is_int pr → - 2 ^ 63 <= dl < 2 ^ 63 →
  ttl ≠ "" → Forall (λ c, c ≠ bar) (String.list_ascii_of_string ttl) →
  (String.length ttl <= 127)%nat →
  cat ≠ "" → Forall (λ c, c ≠ bar) (String.list_ascii_of_string cat) →
  (String.length cat <= 31)%nat →
  sscanf_line (line_body i ttl cat pr dl) = Parsed i ttl cat pr dl.
Proof.
  intros Hi Hp Hd Ht1 Ht2 Ht3 Hc1 Hc2 Hc3. unfold sscanf_line, line_body.
  rewrite scan_int_print by (done || apply stops_bar).
  cbn [mbind option_bind expect_bar]. rewrite Ascii.eqb_refl.
  cbn [mbind option_bind]. rewrite scan_field_ok by done.
  cbn [mbind option_bind expect_bar]. rewrite Ascii.eqb_refl.
  cbn [mbind option_bind]. rewrite scan_field_ok by done.
  cbn [mbind option_bind expect_bar]. rewrite Ascii.eqb_refl.
  cbn [mbind option_bind]. rewrite scan_int_print by (done || apply stops_bar).
  cbn [mbind option_bind expect_bar]. rewrite Ascii.eqb_refl.
  cbn [mbind option_bind].
  rewrite <- (str_app_nil_r (print_int dl)), scan_llong_print by done.
  done.
Qed.

Lemma sscanf_line_empty_title (i : Z) (rest : string) :
  sscanf_line (print_int i +:+ String bar (String bar rest)) = Malformed.
Proof.
  unfold sscanf_line.
  destruct (scan_int_print_rest i (String bar (String bar rest))) as [v ->];
    [apply stops_bar|].
  cbn [mbind option_bind expect_bar]. rewrite Ascii.eqb_refl.
  cbn [mbind option_bind]. by rewrite scan_field_bar.
Qed.

Lemma sscanf_line_empty_category (i : Z) (ttl rest : string) :
  ttl ≠ "" → Forall (λ c, c ≠ bar) (String.list_ascii_of_string ttl) →
  (String.length ttl <= 127)%nat →
  sscanf_line (print_int i +:+ String bar (ttl +:+ String bar (String bar rest)))
  = Malformed.
Proof.
  intros Ht1 Ht2 Ht3. unfold sscanf_line.
  destruct (scan_int_print_rest i
              (String bar (ttl +:+ String bar (String bar rest)))) as [v ->];
    [apply stops_bar|].
  cbn [mbind option_bind expect_bar]. rewrite Ascii.eqb_refl.
  cbn [mbind option_bind]. rewrite scan_field_ok by done.
  cbn [mbind option_bind expect_bar]. rewrite Ascii.eqb_refl.
  cbn [mbind option_bind]. by rewrite scan_field_bar.
Qed.

Lemma sscanf_line_fields (s : string) (i : Z) (ttl cat : string) (pr dl : Z) :
  sscanf_line s = Parsed i ttl cat pr dl →
  (ttl ≠ "" ∧ (String.length ttl <= 127)%nat
   ∧ Forall (λ c, c ≠ bar) (String.list_ascii_of_string ttl))
  ∧ (cat ≠ "" ∧ (String.length cat <= 31)%nat
     ∧ Forall (λ c, c ≠ bar) (String.list_ascii_of_string cat))
  ∧ is_int i ∧ is_int pr ∧ LLONG_MIN <= dl <= LLONG_MAX.
Proof.
  unfold sscanf_line.
  destruct (scan_int s) as [[lid s1]|] eqn:Hi; [|done]. cbn [mbind option_bind].
  destruct (expect_bar s1) as [s2|]; [|done]. cbn [mbind option_bind].
  destruct (scan_field 127 s2) as [[lt s3]|] eqn:Ht; [|done]. cbn [mbind option_bind].
  destruct (expect_bar s3) as [s4|]; [|done]. cbn [mbind option_bind].
  destruct (scan_field 31 s4) as [[lc s5]|] eqn:Hc; [|done]. cbn [mbind option_bind].
  destruct (expect_bar s5) as [s6|]; [|done]. cbn [mbind option_bind].
  destruct (scan_int s6) as [[lp s7]|] eqn:Hp; [|done]. cbn [mbind option_bind].
  destruct (expect_bar s7) as [s8|]; [|done]. cbn [mbind option_bind].
  destruct (scan_llong s8) as [[ld s9]|] eqn:Hd; [|done]. cbn [mbind option_bind].
  intros [= <- <- <- <- <-].
  split; [exact (scan_field_spec 127 s2 lt s3 Ht)|].
  split; [exact (scan_field_spec 31 s4 lc s5 Hc)|].
  split; [exact (scan_int_range s lid s1 Hi)|].
  split; [exact (scan_int_range s6 lp s7 Hp)|exact (scan_llong_range s8 ld s9 Hd)].
Qed.

(** ** The whole file *)

Lemma line_body_clean (i : Z) (ttl cat : string) (pr dl : Z) :
  Forall plain (String.list_ascii_of_string ttl) →
  Forall plain (String.list_ascii_of_string cat) →
  Forall (λ c, c ≠ newline ∧ c ≠ nul)
    (String.list_ascii_of_string (line_body i ttl cat pr dl)).
Proof.
  intros Ht Hc.
  assert (Hweak : ∀ cs, Forall plain cs → Forall (λ c, c ≠ newline ∧ c ≠ nul) cs).
  { intros cs H. eapply Forall_impl; [exact H|]. by intros c (_ & H1 & H2). }
  assert (Hbar : bar ≠ newline ∧ bar ≠ nul) by (by vm_compute).
  unfold line_body.
  repeat (rewrite chars_app || rewrite chars_cons).
  repeat first [apply Forall_app; split | apply Forall_cons; split];
    try done; apply Hweak; try done; apply print_int_plain.
Qed.

Lemma line_body_length (i : Z) (ttl cat : string) (pr dl : Z) :
  is_int i → is_int pr → - 2 ^ 63 <= dl < 2 ^ 63 →
  (String.length ttl <= 127)%nat → (String.length cat <= 31)%nat →
  (String.length (line_body i ttl cat pr dl) < LINE_BUF - 1)%nat.
Proof.
  intros Hi Hp Hd Ht Hc. unfold line_body, LINE_BUF.
  repeat (rewrite str_length_app || cbn [String.length]).
  pose proof (print_int_length i) as H1.
  pose proof (print_int_length pr) as H2.
  pose proof (print_int_length dl Hd) as H3.
  unfold is_int, INT_MIN, INT_MAX in *.
  specialize (H1 ltac:(lia)). specialize (H2 ltac:(lia)). lia.
Qed.

Lemma saved_line_read (t : task_t) (rest : string) :
  saved_ok t →
  ∃ buf,
    fgets (LINE_BUF - 1) (format_line t +:+ rest) = (buf, rest)
    ∧ sscanf_line (chop_newline (c_string buf)) = line_of_task t.
Proof.
  intros (Hid & Hpr & Hdl & (Ht1 & Ht2 & Ht3) & (Hc1 & Hc2 & Hc3)).
  assert (Hnul : ∀ f, Forall plain (String.list_ascii_of_string f) → c_string f = f).
  { intros f Hf. apply c_string_id. eapply Forall_impl; [exact Hf|].
    by intros c (_ & _ & H). }
  rewrite format_line_body, (Hnul _ Ht3), (Hnul _ Hc3).
  set (body := line_body (id t) (title t) (category t) (priority t) (deadline t)).
  pose proof (line_body_clean (id t) (title t) (category t) (priority t)
                (deadline t) Ht3 Hc3) as Hclean. fold body in Hclean.
  assert (Hnl : Forall (λ c, c ≠ newline) (String.list_ascii_of_string body)).
  { eapply Forall_impl; [exact Hclean|]. by intros c [H _]. }
  assert (Hnn : Forall (λ c, c ≠ nul) (String.list_ascii_of_string body)).
  { eapply Forall_impl; [exact Hclean|]. by intros c [_ H]. }
  rewrite str_app_assoc, str_app_cons, str_app_nil_l.
  rewrite fgets_line by (done || by apply line_body_length).
  eexists. split; [done|].
  rewrite c_string_id.
  - rewrite chop_newline_line by done. unfold body, line_of_task.
    apply sscanf_line_body; try done; by apply plain_no_bar.
  - rewrite chars_app, chars_cons. apply Forall_app. split; [done|].
    by repeat constructor.
Qed.

Lemma format_line_nonempty (t : task_t) (rest : string) :
  format_line t +:+ rest ≠ ""
  ∧ (String.length rest < String.length (format_line t +:+ rest))%nat.
Proof.
  rewrite format_line_body, str_app_assoc, str_app_cons, str_app_nil_l.
  rewrite str_length_app. cbn [String.length]. split; [|lia].
  destruct (line_body _ _ _ _ _); done.
Qed.

Lemma save_text_length (l : list task_t) :
  (length l <= String.length (save_text l))%nat.
Proof.
  induction l as [|t l IH]; [done|]. cbn [save_text foldr length].
  destruct (format_line_nonempty t (foldr (λ t acc, format_line t +:+ acc) "" l))
    as [_ H]. unfold save_text in IH. lia.
Qed.

Lemma read_lines_saved (l : list task_t) : ∀ fuel : nat,
  Forall saved_ok l → (length l <= fuel)%nat →
  read_lines fuel (save_text l) = line_of_task <$> l.
Proof.
  induction l as [|t l IH]; intros fuel Hall Hfuel.
  - by destruct fuel.
  - apply Forall_cons in Hall as [Ht Hl].
    destruct fuel as [|fuel]; [cbn in Hfuel; lia|].
    cbn [save_text foldr]. fold (save_text l).
    destruct (format_line_nonempty t (save_text l)) as [Hne _].
    destruct (saved_line_read t (save_text l) Ht) as (buf & Hfgets & Hscan).
    cbn [read_lines].
    destruct (format_line t +:+ save_text l) as [|c text] eqn:Htext; [done|].
    rewrite Hfgets, Hscan, fmap_cons. f_equal. apply IH; [done|].
    cbn [length] in Hfuel. lia.
Qed.

Lemma fgets_consumes (n : nat) (s buf rest : string) :
  (0 < n)%nat → s ≠ "" → fgets n s = (buf, rest) →
  (String.length rest < String.length s)%nat.
Proof.
  intros Hn Hs Hf. destruct n as [|n]; [lia|]. destruct s as [|c s]; [done|].
  cbn [fgets] in Hf. destruct (Ascii.eqb c newline).
  - injection Hf as <- <-. cbn [String.length]. lia.
  - destruct (fgets n s) as [l r] eqn:Hrec. injection Hf as <- <-.
    assert (Hle : (String.length r <= String.length s)%nat).
    { clear -Hrec. revert s l r Hrec. induction n as [|n IH]; intros s l r Hrec.
      - destruct s; injection Hrec as <- <-; lia.
      - destruct s as [|d s]; [injection Hrec as <- <-; lia|].
        cbn [fgets] in Hrec. destruct (Ascii.eqb d newline).
        + injection Hrec as <- <-. cbn [String.length]. lia.
        + destruct (fgets n s) as [l' r'] eqn:Hrec'. injection Hrec as <- <-.
          specialize (IH s l' r' Hrec'). cbn [String.length]. lia. }
    cbn [String.length]. lia.
Qed.

(** The length of the file is fuel enough for [read_lines]: more fuel reads
    the same lines. *)
Lemma read_lines_fuel (fuel : nat) : ∀ (text : string) (fuel' : nat),
  (String.length text <= fuel)%nat → (String.length text <= fuel')%nat →
  read_lines fuel text = read_lines fuel' text.
Proof.
  induction fuel as [|fuel IH]; intros text fuel' Hf Hf'.
  - destruct text; [by destruct fuel'|cbn in Hf; lia].
  - destruct text as [|c text]; [by destruct fuel'|].
    destruct fuel' as [|fuel']; [cbn in Hf'; lia|].
    cbn [read_lines].
    destruct (fgets (LINE_BUF - 1) (String c text)) as [buf rest] eqn:Hfg.
    assert (Hn : (0 < LINE_BUF - 1)%nat) by (unfold LINE_BUF; lia).
    assert (Hne : String c text ≠ "") by done.
    pose proof (fgets_consumes _ _ _ _ Hn Hne Hfg) as Hlt.
    cbn [String.length] in *. f_equal. apply IH; lia.
Qed.

Lemma save_loop_spec (arr : list task_t) (n : nat) : ∀ k : nat,
  (k + n ≤ length arr)%nat →
  save_loop n (Z.of_nat k) arr = Some (save_text (take n (drop k arr))).
Proof.
  induction n as [|n IH]; intros k Hk; [done|].
  destruct (slice_lookup arr k n Hk) as [t Ht].
  cbn [save_loop]. rewrite rd_nat, Ht. cbn [mbind option_bind].
  rewrite succ_nat, IH by lia. cbn [mbind option_bind].
  by rewrite (slice_cons _ _ _ _ Ht).
Qed.

Lemma save_tasks_spec (s : store) :
  store_ok s → save_tasks s = Some (save_text (live s)).
Proof.
  intros Hok. destruct (store_ok_count s Hok) as (m & Hm & Hle & Hlive & _).
  unfold save_tasks. rewrite Hm, Nat2Z.id.
  pose proof (save_loop_spec (tasks s) m 0%nat Hle) as H.
  from_start H. by rewrite H, Hlive.
Qed.

(** ** [load_tasks] as a function of the lines *)

Lemma next_id_after_cons (n : Z) (t : task_t) (l : list task_t) :
  next_id_after n (t :: l)
  = next_id_after (if n <=? id t then wrap_int (id t + 1) else n) l.
Proof. reflexivity. Qed.

Lemma load_loop_spec (lines : list line) : ∀ s,
  store_ok s →
  ∃ s', load_loop lines s = Some s' ∧ store_ok s'
        ∧ live s' = live s ++ take (Z.to_nat (MAX_TASKS - task_count s))
                               (omap task_of_line lines)
        ∧ next_id s' = next_id_after (next_id s)
                         (take (Z.to_nat (MAX_TASKS - task_count s))
                            (omap task_of_line lines)).
Proof.
  induction lines as [|l rest IH]; intros s Hok.
  - exists s. cbn [load_loop].
    change (omap task_of_line []) with (@nil task_t).
    rewrite take_nil, app_nil_r. done.
  - cbn [load_loop].
    destruct (Z.ltb_spec (task_count s) MAX_TASKS) as [Hroom|Hfull].
    + destruct l as [lid ltitle lcat lpr ldl|]; [|by apply IH].
      pose proof Hok as [Hlen [Hlo Hhi]].
      rewrite wr_ok by (rewrite Hlen; unfold MAX_TASKS in *; lia).
      cbn [mbind option_bind].
      set (t := mk_task lid (strncpy 127 ltitle) (strncpy 31 lcat) lpr ldl).
      set (s1 := mk_store _ _ _).
      assert (Hok1 : store_ok s1).
      { split; cbn [s1 tasks task_count]; [by rewrite length_insert|lia]. }
      destruct (IH s1 Hok1) as (s' & Hrun & Hok' & Hlive & Hnext).
      exists s'. split; [done|]. split; [done|].
      assert (Hl1 : live s1 = live s ++ [t]) by (by apply live_append).
      assert (Hom : omap task_of_line (Parsed lid ltitle lcat lpr ldl :: rest)
                    = t :: omap task_of_line rest) by reflexivity.
      rewrite Hom.
      replace (Z.to_nat (MAX_TASKS - task_count s))
        with (S (Z.to_nat (MAX_TASKS - task_count s1)))
        by (cbn [s1 task_count]; lia).
      cbn [take]. rewrite next_id_after_cons.
      rewrite Hlive, Hnext, Hl1, <- app_assoc. done.
    + exists s. replace (Z.to_nat (MAX_TASKS - task_count s)) with 0%nat by lia.
      rewrite take_0, app_nil_r. done.
Qed.

Lemma next_id_after_spec (l : list task_t) : ∀ n : Z,
  is_int n → Forall (λ t, INT_MIN <= id t < INT_MAX) l →
  is_int (next_id_after n l)
  ∧ n <= next_id_after n l
  ∧ Forall (λ t, id t < next_id_after n l) l
  ∧ (next_id_after n l = n ∨ ∃ t, t ∈ l ∧ next_id_after n l = id t + 1).
Proof.
  induction l as [|t l IH]; intros n Hn Hall.
  - cbn. repeat split; try apply Hn; try lia; auto.
  - apply Forall_cons in Hall as [Ht Hl]. rewrite next_id_after_cons.
    unfold is_int in *.
    destruct (Z.leb_spec n (id t)) as [Hle|Hgt].
    + rewrite wrap_int_id by (unfold INT_MIN, INT_MAX in *; lia).
      destruct (IH (id t + 1)) as (Hint & Hge & Hbelow & Hcase); [lia|done|].
      split; [done|]. split; [lia|]. split.
      * constructor; [lia|done].
      * right. destruct Hcase as [->|(u & Hu & ->)].
        -- exists t. split; [left|done].
        -- exists u. split; [by right|done].
    + destruct (IH n) as (Hint & Hge & Hbelow & Hcase); [lia|done|].
      split; [done|]. split; [done|]. split.
      * constructor; [lia|done].
      * destruct Hcase as [->|(u & Hu & ->)]; [by left|].
        right. exists u. split; [by right|done].
Qed.

(** ** The store operations together *)

Lemma delete_task_found (key : Z) (s : store) :
  store_ok s →
  ((key ∉ id <$> live s) → delete_task key s = Some (s, false))
  ∧ (key ∈ id <$> live s →
       ∃ s', delete_task key s = Some (s', true)
             ∧ task_count s' = task_count s - 1
             ∧ S (length (live s')) = length (live s)
             ∧ next_id s' = next_id s).
Proof.
  intros Hok.
  destruct (delete_task_spec key s Hok) as
    [[Hrun Hall]|(j & t & arr' & Hrun & Hj & Hid & _ & _ & Hlive)].
  - split; [done|]. intros Hin. exfalso.
    apply list_elem_of_fmap in Hin as (t & -> & Hin).
    rewrite Forall_forall in Hall. by apply (Hall t Hin).
  - split.
    + intros Hnot. exfalso. apply Hnot. apply list_elem_of_fmap.
      exists t. split; [done|]. by eapply list_elem_of_lookup_2.
    + intros _. eexists. split; [exact Hrun|]. split; [done|]. split; [|done].
      assert (Hl' : live (mk_store arr' (task_count s - 1) (next_id s))
                    = delete j (live s)) by exact Hlive.
      rewrite Hl', length_delete by eauto.
      apply lookup_lt_Some in Hj. lia.
Qed.

(** X1. [delete_task] reports "found" exactly when a live task has the id.
    When none has it the store is left as it was; when one has it the number
    of live tasks drops by exactly one and the id counter keeps its value. *)
Theorem delete_task_reports (key : Z) (s : store) :
  store_ok s →
  ((key ∉ id <$> live s) → delete_task key s = Some (s, false))
  ∧ (key ∈ id <$> live s →
       ∃ s', delete_task key s = Some (s', true)
             ∧ task_count s' = task_count s - 1
             ∧ S (length (live s')) = length (live s)
             ∧ next_id s' = next_id s).
Proof. intros. eapply delete_task_found; eassumption. Qed.

Lemma delete_task_reports_witness :
  store_ok demo_store ∧ (9 ∉ id <$> live demo_store)
  ∧ delete_task 9 demo_store = Some (demo_store, false).
Proof.
  assert (H9 : 9 ∉ id <$> live demo_store).
  { vm_compute. intros H. repeat (inversion H as [|? ? ? H']; clear H; rename H' into H). }
  split; [exact demo_store_ok|]. split; [exact H9|].
  exact (proj1 (delete_task_reports 9 demo_store demo_store_ok) H9).
Defined.

(** X2. Adding a task and then deleting the id it was given brings the live
    tasks back to what they were, provided there was room and the live ids
    were below the id counter; the id itself is not handed out again. *)
Theorem add_then_delete (ttl cat : string) (pr dl : Z) (s : store) :
  store_ok s → task_count s < MAX_TASKS → ids_below s →
  ∃ s1 s2,
    add_task ttl cat pr dl s = Some (s1, Added (next_id s))
    ∧ delete_task (next_id s) s1 = Some (s2, true)
    ∧ live s2 = live s
    ∧ task_count s2 = task_count s
    ∧ next_id s2 = wrap_int (next_id s + 1).
Proof.
  intros Hok Hroom Hbelow.
  destruct (add_task_room ttl cat pr dl s Hok Hroom) as (arr1 & Hadd & Hlen1 & Hlive1).
  set (t := mk_task (next_id s) (strncpy 127 ttl) (strncpy 31 cat) pr dl) in *.
  set (s1 := mk_store arr1 (task_count s + 1) (wrap_int (next_id s + 1))) in *.
  assert (Hl1 : live s1 = live s ++ [t]) by exact Hlive1.
  assert (Hok1 : store_ok s1).
  { destruct Hok as [Hl [Hlo Hhi]].
    split; cbn [s1 tasks task_count]; [congruence|lia]. }
  exists s1.
  destruct (delete_task_spec (next_id s) s1 Hok1) as
    [[_ Hall]|(j & u & arr2 & Hdel & Hj & Hid & Hbefore & _ & Hlive2)].
  - exfalso. rewrite Hl1 in Hall. apply Forall_app in Hall as [_ Hall].
    apply Forall_cons in Hall as [Hne _]. by apply Hne.
  - eexists. split; [done|]. split; [exact Hdel|].
    assert (Hjlen : j = length (live s)).
    { rewrite Hl1 in Hj. unfold ids_below in Hbelow.
      destruct (decide (j < length (live s))%nat) as [Hlt|Hge].
      - rewrite lookup_app_l in Hj by done.
        rewrite Forall_forall in Hbelow.
        specialize (Hbelow u (list_elem_of_lookup_2 _ _ _ Hj)). lia.
      - apply lookup_lt_Some in Hj. rewrite length_app in Hj. simpl in Hj. lia. }
    split; [|split; [cbn [s1 task_count]; lia|done]].
    assert (Hl2 : live (mk_store arr2 (task_count s1 - 1) (next_id s1))
                  = delete j (live s1)) by exact Hlive2.
    rewrite Hl2, Hl1, Hjlen, delete_take_drop.
    rewrite take_app_length, drop_ge by (rewrite length_app; simpl; lia).
    by rewrite app_nil_r.
Qed.

Lemma add_then_delete_witness :
  store_ok demo_store ∧ task_count demo_store < MAX_TASKS ∧ ids_below demo_store
  ∧ ∃ s1 s2,
      add_task "gym" "Personal" 1 900 demo_store
      = Some (s1, Added (next_id demo_store))
      ∧ delete_task (next_id demo_store) s1 = Some (s2, true)
      ∧ live s2 = live demo_store
      ∧ task_count s2 = task_count demo_store
      ∧ next_id s2 = wrap_int (next_id demo_store + 1).
Proof.
  assert (Hroom : task_count demo_store < MAX_TASKS) by reflexivity.
  split; [exact demo_store_ok|]. split; [exact Hroom|].
  split; [exact demo_store_ids_below|].
  exact (add_then_delete "gym" "Personal" 1 900 demo_store
           demo_store_ok Hroom demo_store_ids_below).
Defined.

(** X4. When the live ids are pairwise distinct, [delete_task] clears the
    id: no live task has it afterwards, and every task with another id is
    still there. *)
Theorem delete_task_clears_id (key : Z) (s : store) :
  store_ok s → NoDup (id <$> live s) →
  ∃ s' found,
    delete_task key s = Some (s', found)
    ∧ (key ∉ id <$> live s')
    ∧ (∀ t, t ∈ live s → id t ≠ key → t ∈ live s').
Proof.
  intros Hok Hnodup.
  destruct (delete_task_spec key s Hok) as
    [[Hrun Hall]|(j & t & arr' & Hrun & Hj & Hid & _ & _ & Hlive)].
  - exists s, false. split; [done|]. split; [|done].
    intros Hin. apply list_elem_of_fmap in Hin as (t & -> & Hin).
    rewrite Forall_forall in Hall. by apply (Hall t Hin).
  - eexists _, true. split; [exact Hrun|].
    assert (Hl' : live (mk_store arr' (task_count s - 1) (next_id s))
                  = delete j (live s)) by exact Hlive.
    rewrite Hl', delete_take_drop.
    rewrite <- (take_drop_middle _ _ _ Hj), fmap_app, fmap_cons in Hnodup.
    apply NoDup_app in Hnodup as (_ & Hdisj & Hrest).
    apply NoDup_cons in Hrest as [Hnotin _].
    split.
    + rewrite fmap_app, elem_of_app. intros [Hin|Hin].
      * apply (Hdisj _ Hin). rewrite Hid. left.
      * by rewrite Hid in Hnotin.
    + intros u Hu Hne. rewrite <- (take_drop_middle _ _ _ Hj) in Hu.
      rewrite elem_of_app in Hu |- *.
      destruct Hu as [Hu|Hu]; [by left|].
      apply elem_of_cons in Hu as [->|Hu]; [done|by right].
Qed.

Lemma demo_store_unique : NoDup (id <$> live demo_store).
Proof.
  vm_compute. repeat constructor;
    intros H; repeat (inversion H as [|? ? ? H']; clear H; rename H' into H).
Defined.

Lemma delete_task_clears_id_witness :
  store_ok demo_store ∧ NoDup (id <$> live demo_store)
  ∧ ∃ s' found,
      delete_task 3 demo_store = Some (s', found)
      ∧ (3 ∉ id <$> live s')
      ∧ (∀ t, t ∈ live demo_store → id t ≠ 3 → t ∈ live s').
Proof.
  split; [exact demo_store_ok|]. split; [exact demo_store_unique|].
  exact (delete_task_clears_id 3 demo_store demo_store_ok demo_store_unique).
Defined.

Lemma run_ops_unique (ops : list op) : ∀ s s' log,
  store_ok s → is_int (next_id s) → ids_below s → NoDup (id <$> live s) →
  run_ops ops s = Some (s', log) →
  next_id s + Z.of_nat (length (added_ids log)) <= INT_MAX →
  ids_below s' ∧ NoDup (id <$> live s').
Proof.
  induction ops as [|o ops IH]; intros s s' log Hok Hint Hbelow Hnodup Hrun Hroom.
  - by injection Hrun as <- <-.
  - cbn [run_ops] in Hrun.
    destruct (run_op_spec o s Hok) as (s1 & r & Hrun1 & Hok1 & Hcase).
    rewrite Hrun1 in Hrun. cbn [mbind option_bind] in Hrun.
    destruct (run_ops ops s1) as [[s2 log2]|] eqn:Hrest; [|done].
    injection Hrun as <- <-. unfold is_int, ids_below in *.
    destruct Hcase as [(t & -> & Ht & Hlive & Hnext)|(Hr & _ & Hnext & Hsub)].
    + cbn [added_ids length] in Hroom.
      assert (Hidt : id t = next_id s)
        by (destruct o; simpl in Ht; try done; by injection Ht as <-).
      rewrite wrap_int_id in Hnext by (unfold INT_MIN, INT_MAX in *; lia).
      apply (IH s1 s2 log2); rewrite ?Hnext, ?Hlive; [done|lia| | |done|lia].
      * apply Forall_app. split.
        -- eapply Forall_impl; [exact Hbelow|]. cbv beta. intros u Hu. lia.
        -- repeat constructor. lia.
      * rewrite fmap_app. apply NoDup_app. split; [done|]. split.
        -- intros i Hi Hin. apply list_elem_of_singleton in Hin as ->.
           apply list_elem_of_fmap in Hi as (u & Hu & Hin).
           rewrite Forall_forall in Hbelow. specialize (Hbelow u Hin). lia.
        -- apply NoDup_singleton.
    + assert (added_ids (r :: log2) = added_ids log2) as Hsame.
      { destruct r; try done. by destruct (Hr new_id). }
      rewrite Hsame in Hroom.
      apply (IH s1 s2 log2); rewrite ?Hnext; [done|lia| | |done|lia].
      * rewrite Forall_forall in Hbelow |- *. intros u Hu.
        apply Hbelow. by eapply elem_of_sublist.
      * eapply sublist_NoDup; [exact Hnodup|by apply fmap_sublist].
Qed.

(** X3. Distinct live ids are an invariant of every run in which the id
    counter stays within [INT_MAX]: from a store whose live ids are pairwise
    distinct and below the counter, any sequence of adds, deletes,
    extractions and queries runs through, and when the counter, which moves
    once for every [Add] that is accepted, has not passed [INT_MAX], it
    leads to a store with the same two properties.  An [Add] refused at
    capacity leaves the counter alone. *)
Theorem live_ids_stay_unique (ops : list op) (s : store) :
  store_ok s → is_int (next_id s) → ids_below s → NoDup (id <$> live s) →
  ∃ s' log,
    run_ops ops s = Some (s', log)
    ∧ store_ok s'
    ∧ (next_id s + Z.of_nat (length (added_ids log)) <= INT_MAX →
       next_id s' = next_id s + Z.of_nat (length (added_ids log))
       ∧ is_int (next_id s') ∧ ids_below s'
       ∧ NoDup (id <$> live s')).
Proof.
  intros Hok Hint Hbelow Hnodup.
  destruct (run_ops_total ops s Hok) as (s' & log & Hrun & Hok' & _).
  exists s', log. split; [done|]. split; [done|]. intros Hroom.
  destruct (run_ops_accepted ops s Hok (proj1 Hint) s' log Hrun) as (_ & _ & Hend);
    [lia|].
  specialize (Hend Hroom).
  destruct (run_ops_unique ops s s' log Hok Hint Hbelow Hnodup Hrun Hroom)
    as [Hbelow' Hnodup'].
  split; [done|]. split; [|done].
  unfold is_int in *. rewrite Hend. lia.
Qed.

Lemma live_ids_stay_unique_witness :
  store_ok near_full_store ∧ is_int (next_id near_full_store)
  ∧ ids_below near_full_store ∧ NoDup (id <$> live near_full_store)
  ∧ ∃ s' log,
      run_ops four_adds near_full_store = Some (s', log)
      ∧ log = [OAdded 2147483645; OAdded 2147483646; ORejected; ORejected]
      ∧ next_id near_full_store + Z.of_nat (length (added_ids log)) <= INT_MAX
      ∧ next_id s' = INT_MAX
      ∧ ids_below s' ∧ NoDup (id <$> live s').
Proof.
  split; [exact near_full_store_ok|]. split; [exact near_full_store_is_int|].
  split; [exact near_full_store_ids_below|].
  split; [exact near_full_store_unique|].
  destruct (live_ids_stay_unique four_adds near_full_store near_full_store_ok
              near_full_store_is_int near_full_store_ids_below
              near_full_store_unique)
    as (s' & log & Hrun & _ & Hinv).
  exists s', log. split; [exact Hrun|].
  assert (Hlog : log = [OAdded 2147483645; OAdded 2147483646; ORejected; ORejected]).
  { assert (Hval : option_map snd (run_ops four_adds near_full_store)
                   = Some [OAdded 2147483645; OAdded 2147483646; ORejected; ORejected])
      by (vm_compute; reflexivity).
    rewrite Hrun in Hval. injection Hval as Hl. exact Hl. }
  assert (Hroom : next_id near_full_store + Z.of_nat (length (added_ids log))
                  <= INT_MAX).
  { rewrite Hlog. vm_compute. discriminate. }
  split; [exact Hlog|]. split; [exact Hroom|].
  destruct (Hinv Hroom) as (Hend & _ & Hbelow & Hnodup).
  split; [|split; [exact Hbelow|exact Hnodup]].
  rewrite Hend, Hlog. vm_compute. reflexivity.
Defined.

(** ** The scheduler's two calls together *)

Lemma scan_deadlines_range (l : list task_t) (now : Z) : ∀ best : Z,
  (Exists (due now) l ∧ scan_deadlines l now best = now)
  ∨ (Forall (future now) l
     ∧ (scan_deadlines l now best = best
        ∨ Exists (λ t, deadline t = scan_deadlines l now best) l)).
Proof.
  induction l as [|t l IH]; intros best; [right; split; [constructor|by left]|].
  cbn [scan_deadlines]. destruct (Z.leb_spec (deadline t) now) as [Hdue|Hfut].
  - left. split; [by left|done].
  - set (best' := if (best =? 0) || (deadline t <? best) then deadline t else best).
    destruct (IH best') as [[Hex Heq]|[Hall Hcase]].
    + left. split; [by right|done].
    + right. split; [by constructor|].
      destruct Hcase as [Heq|Hex]; [|right; by right].
      rewrite Heq. unfold best'.
      destruct ((best =? 0) || (deadline t <? best)); [right; by left|by left].
Qed.

Lemma next_deadline_result (s : store) (now : Z) :
  store_ok s →
  ∃ nd,
    next_deadline s now = Some nd
    ∧ (nd = 0
       ∨ (nd = now ∧ Exists (due now) (live s))
       ∨ (now < nd ∧ Exists (λ t, deadline t = nd) (live s)
          ∧ Forall (future now) (live s))).
Proof.
  intros Hok. destruct (reads_only_live_ok s Hok) as (_ & Hnd & _).
  rewrite Hnd. eexists. split; [done|].
  destruct (scan_deadlines_range (live s) now 0) as [[Hex ->]|[Hall [->|Hex]]].
  - right. left. done.
  - by left.
  - right. right. split; [|done].
    apply Exists_exists in Hex as (t & Hin & Heq).
    rewrite Forall_forall in Hall. specialize (Hall t Hin).
    unfold future in Hall. lia.
Qed.

(** X8. [next_deadline] returns 0, or the clock value it read when some
    live task is due, or else the deadline of a live task, and then that
    deadline and all the others are after the clock value: a result other
    than 0 is never in the past. *)
Theorem next_deadline_range (s : store) (now : Z) :
  store_ok s →
  ∃ nd,
    next_deadline s now = Some nd
    ∧ (nd = 0
       ∨ (nd = now ∧ Exists (due now) (live s))
       ∨ (now < nd ∧ Exists (λ t, deadline t = nd) (live s)
          ∧ Forall (future now) (live s))).
Proof. intros. eapply next_deadline_result; eassumption. Qed.

Lemma next_deadline_range_witness :
  store_ok demo_store
  ∧ ∃ nd,
      next_deadline demo_store 50 = Some nd
      ∧ (nd = 0
         ∨ (nd = 50 ∧ Exists (due 50) (live demo_store))
         ∨ (50 < nd ∧ Exists (λ t, deadline t = nd) (live demo_store)
            ∧ Forall (future 50) (live demo_store))).
Proof.
  split; [exact demo_store_ok|].
  exact (next_deadline_range demo_store 50 demo_store_ok).
Defined.

(** X7. The scheduler does not wake for nothing: when [next_deadline]
    returned a value other than 0 and the extraction runs at a clock value
    that has reached it, with the store untouched in between, at least one
    task is due and a batch is made. *)
Theorem wake_finds_due_task (fill : task_t) (s : store) (now nd tnow : Z) :
  store_ok s → next_deadline s now = Some nd → nd ≠ 0 → nd <= tnow →
  ∃ s' dc,
    extract_due fill tnow s = Some (s', Some dc)
    ∧ 0 < count dc
    ∧ batch_tasks (Some dc) = filter (due tnow) (live s).
Proof.
  intros Hok Hnd Hnz Hreach.
  destruct (next_deadline_result s now Hok) as (nd' & Hnd' & Hcase).
  rewrite Hnd in Hnd'. injection Hnd' as <-.
  assert (Hex : Exists (due tnow) (live s)).
  { destruct Hcase as [?|[[-> Hex]|(_ & Hex & _)]]; [done| |].
    - eapply Exists_impl; [exact Hex|]. unfold due. intros t Ht. lia.
    - eapply Exists_impl; [exact Hex|]. unfold due. cbv beta. intros t Ht. lia. }
  destruct (extract_due_spec fill tnow s Hok) as
    (s' & b & Hrun & _ & Hb & _ & _ & _ & _ & Hwf).
  destruct b as [dc|].
  - exists s', dc. split; [done|]. split; [by apply Hwf|done].
  - exfalso. cbn [batch_tasks] in Hb.
    apply Exists_exists in Hex as (t & Hin & Hd).
    assert (Hmem : t ∈ filter (due tnow) (live s)) by (by apply list_elem_of_filter).
    rewrite <- Hb in Hmem. by apply elem_of_nil in Hmem.
Qed.

Lemma wake_finds_due_task_witness :
  store_ok demo_store ∧ next_deadline demo_store 50 = Some 100
  ∧ 100 ≠ 0 ∧ 100 <= 100
  ∧ ∃ s' dc,
      extract_due zero_task 100 demo_store = Some (s', Some dc)
      ∧ 0 < count dc
      ∧ batch_tasks (Some dc) = filter (due 100) (live demo_store).
Proof.
  assert (Hnd : next_deadline demo_store 50 = Some 100) by reflexivity.
  assert (Hnz : 100 ≠ 0) by discriminate.
  assert (Hle : 100 <= 100) by lia.
  split; [exact demo_store_ok|]. split; [exact Hnd|].
  split; [exact Hnz|]. split; [exact Hle|].
  exact (wake_finds_due_task zero_task demo_store 50 100 100
           demo_store_ok Hnd Hnz Hle).
Defined.

Lemma extract_due_batch_spec (fill : task_t) (tnow : Z) (s : store) :
  store_ok s →
  ∃ s' b,
    extract_due fill tnow s = Some (s', b)
    ∧ (b = None ↔ Forall (future tnow) (live s))
    ∧ (b = None → s' = s)
    ∧ (∀ dc, b = Some dc →
         0 < count dc
         ∧ count dc = Z.of_nat (length (items dc))
         ∧ items dc = filter (due tnow) (live s)).
Proof.
  intros Hok.
  destruct (extract_due_spec fill tnow s Hok) as
    (s' & b & Hrun & _ & Hb & _ & _ & _ & Hnone & Hwf).
  exists s', b. split; [done|].
  assert (Hiff : filter (due tnow) (live s) = [] ↔ Forall (future tnow) (live s)).
  { split.
    - intros Hnil. rewrite Forall_forall. intros t Hin.
      destruct (decide (due tnow t)) as [Hd|Hd]; [|unfold due, future in *; lia].
      by destruct (filter_nil_not_elem_of _ _ t Hnil Hd).
    - intros Hall. destruct (filter (due tnow) (live s)) as [|t l] eqn:Hf; [done|].
      assert (Hin : t ∈ filter (due tnow) (live s)) by (rewrite Hf; left).
      apply list_elem_of_filter in Hin as [Hd Hin].
      rewrite Forall_forall in Hall. specialize (Hall t Hin).
      unfold due, future in *. lia. }
  split; [|split].
  - rewrite <- Hiff. split.
    + intros ->. by rewrite <- Hb.
    + intros Hnil. by apply Hnone.
  - intros ->. apply Hnone. by rewrite <- Hb.
  - intros dc ->. destruct (Hwf dc eq_refl) as [Hcount Hpos].
    split; [done|]. split; [done|].
    cbn [batch_tasks] in Hb. rewrite <- Hb, take_ge; [done|lia].
Qed.

(** X5. The extraction makes no batch exactly when no live task is due, and
    then it leaves the store as it was; a batch it makes holds as many
    copies as it counts, one for each due task. *)
Theorem extract_due_batch_or_nothing (fill : task_t) (tnow : Z) (s : store) :
  store_ok s →
  ∃ s' b,
    extract_due fill tnow s = Some (s', b)
    ∧ (b = None ↔ Forall (future tnow) (live s))
    ∧ (b = None → s' = s)
    ∧ (∀ dc, b = Some dc →
         0 < count dc
         ∧ count dc = Z.of_nat (length (items dc))
         ∧ items dc = filter (due tnow) (live s)).
Proof. intros. eapply extract_due_batch_spec; eassumption. Qed.

Lemma extract_due_batch_or_nothing_witness :
  store_ok demo_store
  ∧ ∃ s' b,
      extract_due zero_task 50 demo_store = Some (s', b)
      ∧ (b = None ↔ Forall (future 50) (live demo_store))
      ∧ (b = None → s' = demo_store)
      ∧ (∀ dc, b = Some dc →
           0 < count dc
           ∧ count dc = Z.of_nat (length (items dc))
           ∧ items dc = filter (due 50) (live demo_store)).
Proof.
  split; [exact demo_store_ok|].
  exact (extract_due_batch_or_nothing zero_task 50 demo_store demo_store_ok).
Defined.

(** X9. Two extractions in a row, the second at a clock value not before
    the first, leave the same live tasks as one extraction at the later
    value, and their two batches together hold the tasks that one batch
    would hold. *)
Theorem extract_due_in_two_steps (fill : task_t) (t1 t2 : Z) (s : store) :
  store_ok s → t1 <= t2 →
  ∃ s1 b1 s2 b2 s12 b12,
    extract_due fill t1 s = Some (s1, b1)
    ∧ extract_due fill t2 s1 = Some (s2, b2)
    ∧ extract_due fill t2 s = Some (s12, b12)
    ∧ live s2 = live s12
    ∧ batch_tasks b1 ++ batch_tasks b2 ≡ₚ batch_tasks b12.
Proof.
  intros Hok Hle.
  destruct (extract_due_spec fill t1 s Hok) as (s1 & b1 & Hrun1 & Hl1 & Hb1 & _).
  destruct (extract_due_ok fill t1 s Hok) as (s1' & b1' & Hrun1' & Hok1).
  rewrite Hrun1 in Hrun1'. injection Hrun1' as <- <-.
  destruct (extract_due_spec fill t2 s1 Hok1) as (s2 & b2 & Hrun2 & Hl2 & Hb2 & _).
  destruct (extract_due_spec fill t2 s Hok) as (s12 & b12 & Hrun12 & Hl12 & Hb12 & _).
  exists s1, b1, s2, b2, s12, b12.
  split; [done|]. split; [done|]. split; [done|].
  rewrite Hl2, Hl12, Hb1, Hb2, Hb12, Hl1. split.
  - apply list_filter_filter_l. unfold future. intros t Ht. lia.
  - rewrite <- (filter_app_complement (due t1) (filter (due t2) (live s))).
    rewrite !list_filter_filter.
    rewrite (list_filter_iff (λ t, due t1 t ∧ due t2 t) (due t1))
      by (unfold due; intros t; lia).
    rewrite (list_filter_iff (λ t, ¬ due t1 t ∧ due t2 t)
              (λ t, due t2 t ∧ future t1 t))
      by (unfold due, future; intros t; lia).
    done.
Qed.

Lemma extract_due_in_two_steps_witness :
  store_ok demo_store ∧ 100 <= 600
  ∧ ∃ s1 b1 s2 b2 s12 b12,
      extract_due zero_task 100 demo_store = Some (s1, b1)
      ∧ extract_due zero_task 600 s1 = Some (s2, b2)
      ∧ extract_due zero_task 600 demo_store = Some (s12, b12)
      ∧ live s2 = live s12
      ∧ batch_tasks b1 ++ batch_tasks b2 ≡ₚ batch_tasks b12.
Proof.
  assert (Hle : 100 <= 600) by lia.
  split; [exact demo_store_ok|]. split; [exact Hle|].
  exact (extract_due_in_two_steps zero_task 100 600 demo_store demo_store_ok Hle).
Defined.

(** X10. A task added with a deadline that has already passed is accepted
    like any other; from then on [next_deadline] answers with the clock
    value, and an extraction at that clock value takes the task into its
    batch. *)
Theorem past_deadline_is_picked_up (fill : task_t) (ttl cat : string)
    (pr dl now : Z) (s : store) :
  store_ok s → task_count s < MAX_TASKS → dl <= now →
  ∃ s1 s2 dc,
    add_task ttl cat pr dl s = Some (s1, Added (next_id s))
    ∧ next_deadline s1 now = Some now
    ∧ extract_due fill now s1 = Some (s2, Some dc)
    ∧ mk_task (next_id s) (strncpy 127 ttl) (strncpy 31 cat) pr dl
        ∈ batch_tasks (Some dc).
Proof.
  intros Hok Hroom Hdl.
  destruct (add_task_room ttl cat pr dl s Hok Hroom) as (arr1 & Hadd & Hlen1 & Hlive1).
  set (t := mk_task (next_id s) (strncpy 127 ttl) (strncpy 31 cat) pr dl) in *.
  set (s1 := mk_store arr1 (task_count s + 1) (wrap_int (next_id s + 1))) in *.
  assert (Hl1 : live s1 = live s ++ [t]) by exact Hlive1.
  assert (Hok1 : store_ok s1).
  { destruct Hok as [Hl [Hlo Hhi]].
    split; cbn [s1 tasks task_count]; [congruence|lia]. }
  assert (Hin : t ∈ live s1) by (rewrite Hl1, elem_of_app; right; left).
  assert (Hd : due now t) by exact Hdl.
  destruct (extract_due_spec fill now s1 Hok1) as
    (s2 & b & Hrun & _ & Hb & _).
  assert (Hmem : t ∈ batch_tasks b) by (rewrite Hb; by apply list_elem_of_filter).
  destruct b as [dc|]; [|by apply elem_of_nil in Hmem].
  exists s1, s2, dc. split; [done|].
  split; [by apply (next_deadline_due s1 now t)|]. done.
Qed.

Lemma past_deadline_is_picked_up_witness :
  store_ok demo_store ∧ task_count demo_store < MAX_TASKS ∧ 20 <= 50
  ∧ ∃ s1 s2 dc,
      add_task "late" "Work" 1 20 demo_store = Some (s1, Added (next_id demo_store))
      ∧ next_deadline s1 50 = Some 50
      ∧ extract_due zero_task 50 s1 = Some (s2, Some dc)
      ∧ mk_task (next_id demo_store) (strncpy 127 "late") (strncpy 31 "Work") 1 20
          ∈ batch_tasks (Some dc).
Proof.
  assert (Hroom : task_count demo_store < MAX_TASKS) by reflexivity.
  assert (Hle : 20 <= 50) by lia.
  split; [exact demo_store_ok|]. split; [exact Hroom|]. split; [exact Hle|].
  exact (past_deadline_is_picked_up zero_task "late" "Work" 1 20 50 demo_store
           demo_store_ok Hroom Hle).
Defined.

(** X6. The reminder thread started on a batch the scheduler has just made
    stays inside the array of copies and runs to its end: before its first
    sleep it prints the number of due tasks and one line for each of them,
    in storage order, and its last output is the closing line, 60 seconds
    after the start. *)
Theorem reminder_runs_on_extracted_batch (fill : task_t) (tnow : Z)
    (s s' : store) (dc : due_copy_t) :
  store_ok s → extract_due fill tnow s = Some (s', Some dc) →
  ∃ evs rest,
    reminder_thread_fn (Some dc) = Some evs
    ∧ timeline 0 evs
      = (0, EHeader (Z.of_nat (length (filter (due tnow) (live s)))))
        :: ((λ t, (0, EDetail t)) <$> filter (due tnow) (live s))
        ++ rest ++ [(60, EFinished)]
    ∧ Forall (λ p, 30 <= p.1 <= 60) rest.
Proof.
  intros Hok Hrun.
  destruct (extract_due_batch_spec fill tnow s Hok) as
    (s'' & b & Hrun' & _ & _ & Hdc).
  rewrite Hrun in Hrun'. injection Hrun' as <- <-.
  destruct (Hdc dc eq_refl) as (Hpos & Hcount & Hitems).
  assert (Hbt : batch_tasks (Some dc) = filter (due tnow) (live s)).
  { cbn [batch_tasks]. rewrite take_ge by lia. done. }
  rewrite (reminder_thread_fn_spec dc) by lia. rewrite Hbt.
  set (bt := filter (due tnow) (live s)).
  assert (Hc : count dc = Z.of_nat (length bt)) by (unfold bt; rewrite <- Hitems; done).
  rewrite Hc. eexists _, _. split; [done|].
  cbn [timeline]. rewrite timeline_app.
  destruct (timeline_details 0 bt) as [-> ->].
  rewrite timeline_app, !timeline_stage_block.
  cbn [timeline]. rewrite app_nil_r.
  assert (Hel : elapsed (ESleep 30 :: (stage_message 30 <$> bt)
                  ++ ESleep 10 :: (stage_message 20 <$> bt)
                  ++ ESleep 15 :: (stage_message 5 <$> bt)
                  ++ ESleep 4 :: (stage_message 1 <$> bt)
                  ++ ESleep 1 :: (stage_message 0 <$> bt) ++ []) = 60).
  { unfold elapsed. by rewrite !sleeps_stage_block. }
  rewrite Hel. split; [reflexivity|].
  unfold stage_at. repeat (apply Forall_app; split);
    apply Forall_fmap, Forall_forall; intros t _; simpl; lia.
Qed.

Lemma reminder_runs_on_extracted_batch_witness :
  store_ok demo_store
  ∧ (∃ s', extract_due zero_task 100 demo_store = Some (s', Some demo_dc))
  ∧ ∃ evs rest,
      reminder_thread_fn (Some demo_dc) = Some evs
      ∧ timeline 0 evs
        = (0, EHeader (Z.of_nat (length (filter (due 100) (live demo_store)))))
          :: ((λ t, (0, EDetail t)) <$> filter (due 100) (live demo_store))
          ++ rest ++ [(60, EFinished)]
      ∧ Forall (λ p, 30 <= p.1 <= 60) rest.
Proof.
  split; [exact demo_store_ok|].
  split; [eexists; vm_compute; reflexivity|].
  exact (reminder_runs_on_extracted_batch zero_task 100 demo_store _ demo_dc
           demo_store_ok eq_refl).
Defined.

(** ** Loading and saving *)

Lemma c_string_app_clean (a b : string) :
  Forall (λ c, c ≠ nul) (String.list_ascii_of_string a) →
  c_string (a +:+ b) = a +:+ c_string b.
Proof.
  induction a as [|c a IH]; [done|]. rewrite chars_cons.
  intros [Hc Ha]%Forall_cons. rewrite !str_app_cons. cbn [c_string].
  destruct (Ascii.eqb_spec c nul); [done|]. by rewrite IH.
Qed.

Lemma chop_newline_app_clean (a b : string) :
  Forall (λ c, c ≠ newline) (String.list_ascii_of_string a) →
  chop_newline (a +:+ b) = a +:+ chop_newline b.
Proof.
  induction a as [|c a IH]; [done|]. rewrite chars_cons.
  intros [Hc Ha]%Forall_cons. rewrite !str_app_cons. cbn [chop_newline].
  destruct (Ascii.eqb_spec c newline); [done|]. by rewrite IH.
Qed.

Lemma plain_no_nul (cs : list ascii) : Forall plain cs → Forall (λ c, c ≠ nul) cs.
Proof. intros H. eapply Forall_impl; [exact H|]. by intros c (_ & _ & Hc). Qed.

Lemma plain_no_newline (cs : list ascii) :
  Forall plain cs → Forall (λ c, c ≠ newline) cs.
Proof. intros H. eapply Forall_impl; [exact H|]. by intros c (_ & Hc & _). Qed.

Lemma task_of_line_saved (t : task_t) :
  (String.length (title t) <= 127)%nat → (String.length (category t) <= 31)%nat →
  task_of_line (line_of_task t) = Some t.
Proof.
  intros Ht Hc. destruct t as [i ttl cat pr dl]. cbn in *.
  by rewrite !strncpy_short.
Qed.

Lemma omap_saved (l : list task_t) :
  Forall saved_ok l → omap task_of_line (line_of_task <$> l) = l.
Proof.
  induction 1 as [|t l Ht _ IH]; [done|].
  destruct Ht as (_ & _ & _ & (_ & Hlt & _) & (_ & Hlc & _)).
  rewrite fmap_cons.
  change (omap task_of_line (line_of_task t :: (line_of_task <$> l)))
    with (match task_of_line (line_of_task t) with
          | Some y => y :: omap task_of_line (line_of_task <$> l)
          | None => omap task_of_line (line_of_task <$> l)
          end).
  by rewrite task_of_line_saved, IH.
Qed.

Lemma omap_ids_ok (lines : list line) :
  Forall line_id_ok lines →
  Forall (λ t, INT_MIN <= id t < INT_MAX) (omap task_of_line lines).
Proof.
  induction 1 as [|l lines Hl _ IH]; [constructor|].
  destruct l as [lid ltitle lcat lpr ldl|]; [|exact IH].
  change (omap task_of_line (Parsed lid ltitle lcat lpr ldl :: lines))
    with (mk_task lid (strncpy 127 ltitle) (strncpy 31 lcat) lpr ldl
          :: omap task_of_line lines).
  by constructor.
Qed.

Lemma load_tasks_spec (lines : list line) (s : store) :
  store_ok s →
  ∃ s',
    load_tasks (Some lines) s = Some s'
    ∧ store_ok s'
    ∧ live s' = take (Z.to_nat MAX_TASKS) (omap task_of_line lines)
    ∧ task_count s' = Z.of_nat (length (live s'))
    ∧ next_id s' = next_id_after 1 (live s').
Proof.
  intros [Hlen _]. cbn [load_tasks].
  assert (Hok0 : store_ok (mk_store (tasks s) 0 1)).
  { split; [done|]. unfold MAX_TASKS. cbn. lia. }
  destruct (load_loop_spec lines _ Hok0) as (s' & Hrun & Hok' & Hlive & Hnext).
  exists s'. split; [done|]. split; [done|].
  cbn [task_count next_id] in Hlive, Hnext. rewrite Z.sub_0_r in Hlive, Hnext.
  change (live (mk_store (tasks s) 0 1)) with (@nil task_t) in Hlive.
  rewrite app_nil_l in Hlive. rewrite Hlive at 1. split; [done|].
  split; [|by rewrite Hnext, <- Hlive].
  destruct (store_ok_count s' Hok') as (m & Hm & _ & _ & Hm'). lia.
Qed.

(** X11. [load_tasks] replaces whatever the store held by the records of
    the file, in file order: a line that [sscanf] does not read in full is
    skipped, and only the first [MAX_TASKS] records are taken; the rest of
    the file is left out without a message. *)
Theorem load_tasks_takes_first_records (lines : list line) (s : store) :
  store_ok s →
  ∃ s',
    load_tasks (Some lines) s = Some s'
    ∧ store_ok s'
    ∧ live s' = take (Z.to_nat MAX_TASKS) (omap task_of_line lines)
    ∧ task_count s' = Z.of_nat (length (live s'))
    ∧ next_id s' = next_id_after 1 (live s').
Proof. intros. eapply load_tasks_spec; eassumption. Qed.

Lemma load_tasks_takes_first_records_witness :
  store_ok demo_store
  ∧ ∃ s',
      load_tasks (Some [Malformed; Parsed 7 "a" "b" 1 2; Malformed]) demo_store
      = Some s'
      ∧ store_ok s'
      ∧ live s' = take (Z.to_nat MAX_TASKS)
                    (omap task_of_line [Malformed; Parsed 7 "a" "b" 1 2; Malformed])
      ∧ task_count s' = Z.of_nat (length (live s'))
      ∧ next_id s' = next_id_after 1 (live s').
Proof.
  split; [exact demo_store_ok|].
  exact (load_tasks_takes_first_records _ demo_store demo_store_ok).
Defined.

(** X12. After [load_tasks] has read a file whose ids are [int]s below
    [INT_MAX], the id counter is 1 or one more than the id of a loaded task,
    it is at least 1 and above every loaded id: the next [Add] gets an id no
    loaded task has. *)
Theorem load_tasks_sets_counter (lines : list line) (s : store) :
  store_ok s → Forall line_id_ok lines →
  ∃ s',
    load_tasks (Some lines) s = Some s'
    ∧ is_int (next_id s') ∧ 1 <= next_id s'
    ∧ ids_below s'
    ∧ (next_id s' = 1 ∨ ∃ t, t ∈ live s' ∧ next_id s' = id t + 1).
Proof.
  intros Hok Hlines.
  destruct (load_tasks_spec lines s Hok) as
    (s' & Hrun & _ & Hlive & _ & Hnext).
  exists s'. split; [done|].
  destruct (next_id_after_spec (live s') 1) as (Hint & Hge & Hbelow & Hcase).
  { by vm_compute. }
  { rewrite Hlive. apply Forall_take. by apply omap_ids_ok. }
  unfold ids_below. rewrite Hnext. done.
Qed.

Lemma load_tasks_sets_counter_witness :
  store_ok init_store
  ∧ Forall line_id_ok [Parsed 7 "a" "b" 1 2; Malformed; Parsed 3 "c" "d" 1 2]
  ∧ ∃ s',
      load_tasks (Some [Parsed 7 "a" "b" 1 2; Malformed; Parsed 3 "c" "d" 1 2])
        init_store = Some s'
      ∧ is_int (next_id s') ∧ 1 <= next_id s'
      ∧ ids_below s'
      ∧ (next_id s' = 1 ∨ ∃ t, t ∈ live s' ∧ next_id s' = id t + 1).
Proof.
  assert (Hl : Forall line_id_ok
                 [Parsed 7 "a" "b" 1 2; Malformed; Parsed 3 "c" "d" 1 2]).
  { repeat constructor; by vm_compute. }
  split; [exact init_store_ok|]. split; [exact Hl|].
  exact (load_tasks_sets_counter _ init_store init_store_ok Hl).
Defined.

(** X13. A line written by [save_tasks] for a task whose numbers are in
    range and whose title and category are not empty, fit their arrays and
    hold no bar, newline or NUL is read back whole by one [fgets], and
    [sscanf] and the copies into the array give the same record again. *)
Theorem saved_line_reads_back (t : task_t) (rest : string) :
  saved_ok t →
  ∃ buf,
    fgets (LINE_BUF - 1) (format_line t +:+ rest) = (buf, rest)
    ∧ sscanf_line (chop_newline (c_string buf)) = line_of_task t
    ∧ task_of_line (sscanf_line (chop_newline (c_string buf))) = Some t.
Proof.
  intros Hsaved. destruct (saved_line_read t rest Hsaved) as (buf & Hfgets & Hscan).
  exists buf. split; [done|]. split; [done|]. rewrite Hscan.
  destruct Hsaved as (_ & _ & _ & (_ & Hlt & _) & (_ & Hlc & _)).
  by apply task_of_line_saved.
Qed.

(** Checks [saved_ok] on a task that is given in full. *)
Ltac check_saved :=
  vm_compute;
  repeat match goal with
         | |- Forall _ _ => constructor
         | |- _ ∧ _ => split
         end; first [discriminate | reflexivity | lia].

Lemma demo_store_saved : Forall saved_ok (live demo_store).
Proof.
  change (live demo_store)
    with [mk_task 1 "pay rent" "Personal" 2 100; mk_task 2 "exam" "Study" 5 500;
          mk_task 3 "report" "Work" 3 100; mk_task 4 "call home" "Personal" 1 700].
  do 4 (constructor; [check_saved|]). constructor.
Defined.

Lemma saved_line_reads_back_witness :
  saved_ok (mk_task 3 "report" "Work" 3 100)
  ∧ ∃ buf,
      fgets (LINE_BUF - 1) (format_line (mk_task 3 "report" "Work" 3 100) +:+ "")
      = (buf, "")
      ∧ sscanf_line (chop_newline (c_string buf))
        = line_of_task (mk_task 3 "report" "Work" 3 100)
      ∧ task_of_line (sscanf_line (chop_newline (c_string buf)))
        = Some (mk_task 3 "report" "Work" 3 100).
Proof.
  assert (H : saved_ok (mk_task 3 "report" "Work" 3 100)) by check_saved.
  split; [exact H|].
  exact (saved_line_reads_back (mk_task 3 "report" "Work" 3 100) "" H).
Defined.

(** X14. A task with an empty title, or with a proper title and an empty
    category, is written by [save_tasks] like any other, but its line is
    not read back: [sscanf] stops at the empty field, the line counts as
    malformed and [load_tasks] skips it. *)
Theorem empty_field_is_not_read_back (t : task_t) :
  title t = "" ∨ (field_ok 127 (title t) ∧ category t = "") →
  sscanf_line (chop_newline (c_string (format_line t))) = Malformed
  ∧ task_of_line (sscanf_line (chop_newline (c_string (format_line t)))) = None.
Proof.
  intros Hcase.
  assert (Hint : ∀ z, Forall (λ c, c ≠ nul) (String.list_ascii_of_string (print_int z))
                      ∧ Forall (λ c, c ≠ newline)
                          (String.list_ascii_of_string (print_int z))).
  { intros z. split; [apply plain_no_nul|apply plain_no_newline];
      apply print_int_plain. }
  assert (Hbar : ∀ x, chop_newline (c_string (String bar x))
                      = String bar (chop_newline (c_string x))).
  { intros x. cbn [c_string]. change (Ascii.eqb bar nul) with false. cbv iota.
    cbn [chop_newline]. by change (Ascii.eqb bar newline) with false. }
  assert (Hmal : sscanf_line (chop_newline (c_string (format_line t))) = Malformed).
  { unfold format_line. repeat (rewrite str_app_assoc || rewrite str_app_cons).
    rewrite c_string_app_clean by apply Hint.
    rewrite chop_newline_app_clean by apply Hint.
    rewrite Hbar.
    destruct Hcase as [Hempty|[(Hne & Hlen & Hplain) Hempty]]; rewrite Hempty.
    - cbn [c_string]. rewrite str_app_nil_l, Hbar.
      apply sscanf_line_empty_title.
    - rewrite (c_string_id (title t)) by (by apply plain_no_nul).
      rewrite c_string_app_clean by (by apply plain_no_nul).
      rewrite chop_newline_app_clean by (by apply plain_no_newline).
      rewrite Hbar. cbn [c_string]. rewrite str_app_nil_l, Hbar.
      apply sscanf_line_empty_category; [done|by apply plain_no_bar|done]. }
  by rewrite Hmal.
Qed.

Lemma empty_field_is_not_read_back_witness :
  (title (mk_task 5 "" "Work" 1 100) = ""
   ∨ (field_ok 127 (title (mk_task 5 "" "Work" 1 100))
      ∧ category (mk_task 5 "" "Work" 1 100) = ""))
  ∧ sscanf_line (chop_newline (c_string (format_line (mk_task 5 "" "Work" 1 100))))
    = Malformed.
Proof.
  assert (H : title (mk_task 5 "" "Work" 1 100) = ""
              ∨ (field_ok 127 (title (mk_task 5 "" "Work" 1 100))
                 ∧ category (mk_task 5 "" "Work" 1 100) = ""))
    by (left; reflexivity).
  split; [exact H|].
  exact (proj1 (empty_field_is_not_read_back (mk_task 5 "" "Work" 1 100) H)).
Defined.

(** X15. Whatever the line, what [sscanf] delivers fits the record it goes
    into: the title and the category are not empty, hold no bar and fit the
    arrays of [task_t], so that the copies [load_tasks] makes of them are
    never cut short, and the id, the priority and the deadline are in the
    range of [int], [int] and [long long], a longer numeral having been cut
    down by the conversion; no line is read as a task whose title holds a
    bar. *)
Theorem parsed_fields_fit (s : string) (i : Z) (ttl cat : string) (pr dl : Z) :
  sscanf_line s = Parsed i ttl cat pr dl →
  ttl ≠ "" ∧ cat ≠ ""
  ∧ (String.length ttl <= 127)%nat ∧ (String.length cat <= 31)%nat
  ∧ (bar ∉ String.list_ascii_of_string ttl)
  ∧ (bar ∉ String.list_ascii_of_string cat)
  ∧ is_int i ∧ is_int pr ∧ LLONG_MIN <= dl <= LLONG_MAX
  ∧ task_of_line (sscanf_line s) = Some (mk_task i ttl cat pr dl).
Proof.
  intros Hscan.
  destruct (sscanf_line_fields s i ttl cat pr dl Hscan) as
    ((Ht1 & Ht2 & Ht3) & (Hc1 & Hc2 & Hc3) & Hi & Hp & Hd).
  rewrite Forall_forall in Ht3, Hc3.
  repeat split; try done; try apply Hi; try apply Hp; try apply Hd.
  - intros Hin. by apply (Ht3 bar Hin).
  - intros Hin. by apply (Hc3 bar Hin).
  - rewrite Hscan. cbn [task_of_line]. by rewrite !strncpy_short.
Qed.

Lemma parsed_fields_fit_witness :
  sscanf_line " 4294967308|walk the dog|Personal|+4|-9223372036854775809 and more"
  = Parsed 12 "walk the dog" "Personal" 4 (-9223372036854775808)
  ∧ task_of_line
      (sscanf_line " 4294967308|walk the dog|Personal|+4|-9223372036854775809 and more")
    = Some (mk_task 12 "walk the dog" "Personal" 4 (-9223372036854775808)).
Proof.
  assert (H : sscanf_line
                " 4294967308|walk the dog|Personal|+4|-9223372036854775809 and more"
              = Parsed 12 "walk the dog" "Personal" 4 (-9223372036854775808))
    by reflexivity.
  split; [exact H|].
  exact (proj2 (proj2 (proj2 (proj2 (proj2 (proj2 (proj2 (proj2 (proj2
           (parsed_fields_fit _ _ _ _ _ _ H)))))))))).
Defined.

(** Numerals beyond the range of their type, as the conversions leave
    them. *)
Example sscanf_line_out_of_range :
  sscanf_line "4294967297|a|b|2147483648|9223372036854775808"
  = Parsed 1 "a" "b" (-2147483648) 9223372036854775807
  ∧ sscanf_line "99999999999999999999999|a|b|-99999999999999999999999|-9223372036854775809"
    = Parsed (-1) "a" "b" 0 (-9223372036854775808)
  ∧ sscanf_line "-2147483649|a|b|9223372036854775807|99999999999999999999999999"
    = Parsed 2147483647 "a" "b" (-1) 9223372036854775807.
Proof. repeat split; reflexivity. Qed.

Lemma save_load_spec (s s0 : store) :
  store_ok s → store_ok s0 → Forall saved_ok (live s) →
  ∃ text s',
    save_tasks s = Some text
    ∧ load_file (Some text) s0 = Some s'
    ∧ live s' = live s
    ∧ task_count s' = task_count s
    ∧ next_id s' = next_id_after 1 (live s).
Proof.
  intros Hok Hok0 Hsaved.
  destruct (store_ok_count s Hok) as (m & Hm & Hle & _ & Hlen).
  exists (save_text (live s)).
  unfold load_file. cbn [fmap option_fmap option_map].
  rewrite read_lines_saved by (done || apply save_text_length).
  destruct (load_tasks_spec (line_of_task <$> live s) s0 Hok0)
    as (s' & Hrun & _ & Hlive & Hcount & Hnext).
  rewrite omap_saved in Hlive by done.
  rewrite take_ge in Hlive by (destruct Hok as [Hl _]; lia).
  exists s'. split; [by apply save_tasks_spec|]. split; [done|].
  split; [done|]. rewrite Hcount, Hnext, Hlive. split; [lia|done].
Qed.

(** X16. What [save_tasks] writes, [load_tasks] reads back: when every
    live task has numbers in range and a title and a category that are not
    empty, fit their arrays and hold no bar, newline or NUL, loading the
    saved text into any store gives the same live tasks in the same order. *)
Theorem save_then_load (s s0 : store) :
  store_ok s → store_ok s0 → Forall saved_ok (live s) →
  ∃ text s',
    save_tasks s = Some text
    ∧ load_file (Some text) s0 = Some s'
    ∧ live s' = live s
    ∧ task_count s' = task_count s
    ∧ next_id s' = next_id_after 1 (live s).
Proof. intros. eapply save_load_spec; eassumption. Qed.

Lemma save_then_load_witness :
  store_ok demo_store ∧ store_ok init_store ∧ Forall saved_ok (live demo_store)
  ∧ ∃ text s',
      save_tasks demo_store = Some text
      ∧ load_file (Some text) init_store = Some s'
      ∧ live s' = live demo_store
      ∧ task_count s' = task_count demo_store
      ∧ next_id s' = next_id_after 1 (live demo_store).
Proof.
  split; [exact demo_store_ok|]. split; [exact init_store_ok|].
  split; [exact demo_store_saved|].
  exact (save_then_load demo_store init_store
           demo_store_ok init_store_ok demo_store_saved).
Defined.



(** Two restarts: after the delete of the task 4 the counter is 5 and comes
    back as 4; a file whose only id is negative gives the counter 1. *)
Example restart_demo :
  (∃ s1 log text s',
     run_ops [OpDelete 4] demo_store = Some (s1, log)
     ∧ next_id s1 = 5
     ∧ save_tasks s1 = Some text
     ∧ load_file (Some text) init_store = Some s'
     ∧ id <$> live s' = [1; 2; 3] ∧ next_id s' = 4)
  ∧ (∃ s1 text s',
       load_file (Some ("-7|neg|w|1|5" +:+ String newline "")) init_store = Some s1
       ∧ id <$> live s1 = [-7]
       ∧ save_tasks s1 = Some text
       ∧ load_file (Some text) init_store = Some s'
       ∧ id <$> live s' = [-7] ∧ next_id s' = 1).
Proof.
  split.
  - eexists _, _, _, _. split; [vm_compute; reflexivity|].
    split; [reflexivity|]. split; [vm_compute; reflexivity|].
    split; [vm_compute; reflexivity|]. split; reflexivity.
  - eexists _, _, _. split; [vm_compute; reflexivity|].
    split; [reflexivity|]. split; [vm_compute; reflexivity|].
    split; [vm_compute; reflexivity|]. split; reflexivity.
Qed.

(** ** The file and the store *)

Lemma run_op_quiet (o : op) (s s' : store) (r : outcome) :
  store_ok s → run_op o s = Some (s', r) →
  (mutates r = false → s' = s)
  ∧ (mutates r = true → length (live s') ≠ length (live s)).
Proof.
  intros Hok Hrun. destruct o as [ttl cat pr dl|key| |now|fill tnow|b];
    cbn [run_op] in Hrun.
  - destruct (Z.le_gt_cases MAX_TASKS (task_count s)) as [Hfull|Hroom].
    + rewrite add_task_full in Hrun by done. injection Hrun as <- <-. done.
    + destruct (add_task_room ttl cat pr dl s Hok) as (arr' & Hadd & _ & Hlive); [lia|].
      rewrite Hadd in Hrun. injection Hrun as <- <-. split; [done|]. intros _.
      assert (Hl : live (mk_store arr' (task_count s + 1) (wrap_int (next_id s + 1)))
                   = live s ++ [mk_task (next_id s) (strncpy 127 ttl)
                                  (strncpy 31 cat) pr dl]) by exact Hlive.
      rewrite Hl, length_app. simpl. lia.
  - destruct (delete_task_found key s Hok) as [Hmiss Hhit].
    destruct (decide (key ∈ id <$> live s)) as [Hin|Hnot].
    + destruct (Hhit Hin) as (s1 & Hdel & _ & Hlen & _).
      rewrite Hdel in Hrun. injection Hrun as <- <-. split; [done|]. lia.
    + rewrite (Hmiss Hnot) in Hrun. injection Hrun as <- <-. done.
  - destruct (view_tasks s); [|done]. injection Hrun as <- <-. done.
  - destruct (next_deadline s now); [|done]. injection Hrun as <- <-. done.
  - destruct (extract_due_spec fill tnow s Hok) as
      (s1 & b & Hext & Hlive & Hb & _ & _ & _ & Hnone & Hwf).
    rewrite Hext in Hrun. injection Hrun as <- <-.
    destruct b as [dc|]; cbn [mutates].
    + split; [done|]. intros _. rewrite Hlive.
      destruct (Hwf dc eq_refl) as [Hcount Hpos].
      assert (Hd : ∃ t, t ∈ filter (due tnow) (live s)).
      { rewrite <- Hb. cbn [batch_tasks].
        destruct (take (Z.to_nat (count dc)) (items dc)) as [|t l] eqn:Ht.
        - apply (f_equal length) in Ht. rewrite length_take in Ht. simpl in Ht. lia.
        - exists t. left. }
      destruct Hd as (t & Ht). apply list_elem_of_filter in Ht as [Hd Hin].
      pose proof (length_filter_lt (future tnow) (live s) t Hin) as Hlt.
      unfold due, future in *. lia.
    + split; [|done]. intros _. apply Hnone. by rewrite <- Hb.
  - injection Hrun as <- <-. done.
Qed.

(** X18. An operation whose outcome tells of no change (an add refused for
    lack of room, a delete that found nothing, an extraction with nothing
    due, a query, a reminder thread) leaves the store exactly as it was,
    slots past [task_count] included; an outcome that tells of a change
    comes with a different number of live tasks. *)
Theorem quiet_outcome_changes_nothing (o : op) (s s' : store) (r : outcome) :
  store_ok s → run_op o s = Some (s', r) →
  (mutates r = false → s' = s)
  ∧ (mutates r = true → length (live s') ≠ length (live s)).
Proof. intros. eapply run_op_quiet; eassumption. Qed.

Lemma quiet_outcome_changes_nothing_witness :
  store_ok full_store
  ∧ run_op (OpAdd "one more" "Work" 1 2000) full_store = Some (full_store, ORejected)
  ∧ (mutates ORejected = false → full_store = full_store).
Proof.
  assert (Hrun : run_op (OpAdd "one more" "Work" 1 2000) full_store
                 = Some (full_store, ORejected)) by (vm_compute; reflexivity).
  split; [exact full_store_ok|]. split; [exact Hrun|].
  exact (proj1 (quiet_outcome_changes_nothing _ _ _ _ full_store_ok Hrun)).
Defined.

(** X19. The file follows the store: whatever the order in which the
    operations of the menu, the scheduler and their calls of [save_tasks]
    come, once the last change to the live tasks has been followed by a
    save, the text of the file is what [save_tasks] writes for the live
    tasks of the store. *)
Theorem file_follows_store (acts : list action) : ∀ (s : store) (file : string)
    (unsaved : bool),
  store_ok s → (unsaved = false → file = save_text (live s)) →
  ∃ s' file' unsaved',
    run_actions acts s file unsaved = Some (s', file', unsaved')
    ∧ store_ok s'
    ∧ (unsaved' = false → file' = save_text (live s')).
Proof.
  induction acts as [|[o|] acts IH]; intros s file unsaved Hok Hsync.
  - by exists s, file, unsaved.
  - cbn [run_actions].
    destruct (run_op_spec o s Hok) as (s1 & r & Hrun & Hok1 & _).
    rewrite Hrun. cbn [mbind option_bind]. apply IH; [done|].
    intros [-> Hquiet]%orb_false_elim.
    destruct (run_op_quiet o s s1 r Hok Hrun) as [Hsame _].
    rewrite (Hsame Hquiet). by apply Hsync.
  - cbn [run_actions]. rewrite save_tasks_spec by done.
    cbn [mbind option_bind]. by apply IH.
Qed.

Lemma file_follows_store_witness :
  store_ok demo_store
  ∧ (false = false → save_text (live demo_store) = save_text (live demo_store))
  ∧ ∃ s' file' unsaved',
      run_actions [Do (OpAdd "gym" "Personal" 1 900); Do (OpExtract zero_task 100);
                   Save; Do (OpDelete 9); Save; Do OpView]
        demo_store (save_text (live demo_store)) false = Some (s', file', unsaved')
      ∧ store_ok s'
      ∧ (unsaved' = false → file' = save_text (live s')).
Proof.
  assert (H : false = false
              → save_text (live demo_store) = save_text (live demo_store))
    by (intros _; reflexivity).
  split; [exact demo_store_ok|]. split; [exact H|].
  exact (file_follows_store _ demo_store _ false demo_store_ok H).
Defined.

(** ** The prompts of [add_task] *)

Lemma fgets_spec (n : nat) : ∀ (s buf rest : string),
  fgets n s = (buf, rest) →
  s = buf +:+ rest ∧ (String.length buf <= n)%nat.
Proof.
  induction n as [|n IH]; intros s buf rest Hf.
  - destruct s; injection Hf as <- <-; by split.
  - destruct s as [|c s]; [injection Hf as <- <-; split; [done|cbn; lia]|].
    cbn [fgets] in Hf. destruct (Ascii.eqb c newline).
    + injection Hf as <- <-. split; [done|cbn; lia].
    + destruct (fgets n s) as [l r] eqn:Hrec. injection Hf as <- <-.
      destruct (IH s l r Hrec) as [-> Hlen]. split; [done|].
      cbn [String.length]. lia.
Qed.

Lemma fgets_full (a b : string) :
  Forall (λ c, c ≠ newline) (String.list_ascii_of_string a) →
  fgets (String.length a) (a +:+ b) = (a, b).
Proof.
  induction a as [|c a IH]; [by destruct b|]. rewrite chars_cons.
  intros [Hc Ha]%Forall_cons. rewrite str_app_cons. cbn [String.length fgets].
  destruct (Ascii.eqb_spec c newline); [done|]. by rewrite IH.
Qed.

Lemma field_of_buffer (buf : string) :
  (String.length (chop_newline (c_string buf)) <= String.length buf)%nat
  ∧ Forall (λ c, c ≠ newline ∧ c ≠ nul)
      (String.list_ascii_of_string (chop_newline (c_string buf))).
Proof.
  induction buf as [|c buf [IHlen IHall]]; [split; [done|constructor]|].
  cbn [c_string]. destruct (Ascii.eqb_spec c nul); [split; [cbn; lia|constructor]|].
  cbn [chop_newline]. destruct (Ascii.eqb_spec c newline);
    [split; [cbn; lia|constructor]|].
  rewrite chars_cons. cbn [String.length]. split; [lia|by constructor].
Qed.

Lemma read_field_spec (size : nat) (input f rest : string) :
  read_field size input = Some (f, rest) →
  (String.length f <= size - 1)%nat
  ∧ Forall (λ c, c ≠ newline ∧ c ≠ nul) (String.list_ascii_of_string f).
Proof.
  unfold read_field. destruct input as [|c input]; [done|].
  destruct (fgets (size - 1) (String c input)) as [buf r] eqn:Hf.
  intros [= <- <-]. destruct (fgets_spec _ _ _ _ Hf) as [_ Hlen].
  destruct (field_of_buffer buf) as [Hl Hall]. split; [lia|done].
Qed.

Lemma read_field_line (size : nat) (a rest : string) :
  Forall (λ c, c ≠ newline ∧ c ≠ nul) (String.list_ascii_of_string a) →
  (String.length a < size - 1)%nat →
  read_field size (a +:+ String newline rest) = Some (a, rest).
Proof.
  intros Ha Hlen.
  assert (Hnl : Forall (λ c, c ≠ newline) (String.list_ascii_of_string a)).
  { eapply Forall_impl; [exact Ha|]. by intros c [H _]. }
  assert (Hnn : Forall (λ c, c ≠ nul) (String.list_ascii_of_string a)).
  { eapply Forall_impl; [exact Ha|]. by intros c [_ H]. }
  unfold read_field.
  destruct (a +:+ String newline rest) as [|c text] eqn:Htext;
    [by destruct a|].
  rewrite <- Htext, fgets_line by done.
  rewrite c_string_app_clean by done. cbn [c_string].
  change (Ascii.eqb newline nul) with false. cbv iota.
  by rewrite chop_newline_line.
Qed.

Lemma read_field_long (size : nat) (a rest : string) :
  Forall (λ c, c ≠ newline ∧ c ≠ nul) (String.list_ascii_of_string a) →
  String.length a = (size - 1)%nat → a ≠ "" →
  read_field size (a +:+ rest) = Some (a, rest).
Proof.
  intros Ha Hlen Hne.
  assert (Hnl : Forall (λ c, c ≠ newline) (String.list_ascii_of_string a)).
  { eapply Forall_impl; [exact Ha|]. by intros c [H _]. }
  assert (Hnn : Forall (λ c, c ≠ nul) (String.list_ascii_of_string a)).
  { eapply Forall_impl; [exact Ha|]. by intros c [_ H]. }
  unfold read_field.
  destruct (a +:+ rest) as [|c text] eqn:Htext; [by destruct a|].
  rewrite <- Htext, <- Hlen, fgets_full by done.
  rewrite c_string_id by done.
  rewrite <- (str_app_nil_r a) at 1.
  assert (Hchop : ∀ x, Forall (λ c, c ≠ newline) (String.list_ascii_of_string x) →
                       chop_newline x = x).
  { induction x as [|d x IH]; [done|]. rewrite chars_cons.
    intros [Hd Hx]%Forall_cons. cbn [chop_newline].
    destruct (Ascii.eqb_spec d newline); [done|]. by rewrite IH. }
  by rewrite str_app_nil_r, Hchop.
Qed.

(** X20. The title and the category [add_task] reads at its prompts fit
    their arrays and hold neither newline nor NUL, so that the copies into
    the task are never cut short. *)
Theorem typed_fields_fit (input ttl cat rest : string) :
  read_title_category input = Some (ttl, cat, rest) →
  (String.length ttl <= 127)%nat ∧ (String.length cat <= 31)%nat
  ∧ Forall (λ c, c ≠ newline ∧ c ≠ nul) (String.list_ascii_of_string ttl)
  ∧ Forall (λ c, c ≠ newline ∧ c ≠ nul) (String.list_ascii_of_string cat)
  ∧ strncpy 127 ttl = ttl ∧ strncpy 31 cat = cat.
Proof.
  unfold read_title_category.
  destruct (read_field 128 input) as [[t r1]|] eqn:H1; [|done].
  cbn [mbind option_bind].
  destruct (read_field 32 r1) as [[c r2]|] eqn:H2; [|done].
  cbn [mbind option_bind]. intros [= <- <- <-].
  destruct (read_field_spec _ _ _ _ H1) as [Hl1 Hc1].
  destruct (read_field_spec _ _ _ _ H2) as [Hl2 Hc2].
  cbn in Hl1, Hl2. repeat split; try done; by apply strncpy_short.
Qed.

Lemma typed_fields_fit_witness :
  read_title_category ("pay rent" +:+ String newline ("Work" +:+ String newline "3"))
  = Some ("pay rent", "Work", "3")
  ∧ strncpy 127 "pay rent" = "pay rent" ∧ strncpy 31 "Work" = "Work".
Proof.
  assert (H : read_title_category
                ("pay rent" +:+ String newline ("Work" +:+ String newline "3"))
              = Some ("pay rent", "Work", "3")) by reflexivity.
  split; [exact H|].
  exact (proj2 (proj2 (proj2 (proj2 (typed_fields_fit _ _ _ _ H))))).
Defined.

(** X21. A title line of up to 126 characters is taken whole and the
    category comes from the next line.  Of a title line of 127 characters
    or more, the first 127 become the title and the category prompt is
    answered by what follows them on the same line: the rest of the title
    line, when it is short enough, becomes the category. *)
Theorem long_title_spills (a b rest : string) :
  Forall (λ c, c ≠ newline ∧ c ≠ nul) (String.list_ascii_of_string a) →
  Forall (λ c, c ≠ newline ∧ c ≠ nul) (String.list_ascii_of_string b) →
  (String.length b < 31)%nat →
  ((String.length a < 127)%nat →
     read_title_category (a +:+ String newline (b +:+ String newline rest))
     = Some (a, b, rest))
  ∧ (String.length a = 127%nat →
     read_title_category (a +:+ b +:+ String newline rest) = Some (a, b, rest)).
Proof.
  intros Ha Hb Hlb. unfold read_title_category. split; intros Hla.
  - rewrite read_field_line by (done || cbn; lia). cbn [mbind option_bind].
    rewrite read_field_line by (done || cbn; lia). done.
  - rewrite read_field_long; [|done|done|by destruct a].
    cbn [mbind option_bind].
    rewrite read_field_line by (done || cbn; lia). done.
Qed.

Lemma long_title_spills_witness :
  Forall (λ c, c ≠ newline ∧ c ≠ nul) (String.list_ascii_of_string "call home")
  ∧ Forall (λ c, c ≠ newline ∧ c ≠ nul) (String.list_ascii_of_string "Personal")
  ∧ (String.length "Personal" < 31)%nat
  ∧ (String.length "call home" < 127)%nat
  ∧ read_title_category
      ("call home" +:+ String newline ("Personal" +:+ String newline "1"))
    = Some ("call home", "Personal", "1").
Proof.
  assert (Ha : Forall (λ c, c ≠ newline ∧ c ≠ nul)
                 (String.list_ascii_of_string "call home"))
    by (repeat constructor; discriminate).
  assert (Hb : Forall (λ c, c ≠ newline ∧ c ≠ nul)
                 (String.list_ascii_of_string "Personal"))
    by (repeat constructor; discriminate).
  assert (Hlb : (String.length "Personal" < 31)%nat) by (cbn; lia).
  assert (Hla : (String.length "call home" < 127)%nat) by (cbn; lia).
  split; [exact Ha|]. split; [exact Hb|]. split; [exact Hlb|]. split; [exact Hla|].
  exact (proj1 (long_title_spills "call home" "Personal" "1" Ha Hb Hlb) Hla).
Defined.
